(** * A shallow embedding of the markdown renderer of [markdown_widget.py]

    The development follows [src/rev/0.7.3dev/dev/markdown_widget.py]:
    the class [MarkdownText] keeps a raw text buffer and renders it into a
    Tk text widget, either verbatim or through a small markdown-subset
    renderer ([_render_markdown_text], [_process_inline_formatting],
    [_position_in_ranges]).

    Conventions of the embedding:
    - a Python [str] is a list of Unicode code points ([char := N]), so that
      [len] is [length] and the slice [s[a:b]] is made of [firstn]/[skipn];
    - Python integers are unbounded: indexes into strings are [nat], the
      positions stored in format records and Tk indexes are [Z] (the code
      subtracts an offset from a start and can go below zero);
    - the Tk widget is a record holding the text and the list of the
      [tag_add] requests received so far. *)

From Stdlib Require Import String Ascii.
From Stdlib Require Import List ZArith NArith Bool Lia Arith.
Import ListNotations.

(* ===================================================================== *)
(** ** Python strings *)
(* ===================================================================== *)

Module Py.

(** A character is a code point; a [str] is a sequence of them. *)
Definition char := N.
Definition str := list char.

(** ASCII literals, written as Rocq strings. *)
Definition lit (s : string) : str := map N_of_ascii (list_ascii_of_string s).
Arguments lit s%_string.

Definition chr (a : ascii) : char := N_of_ascii a.
Arguments chr a%_char.

Definition eqc (a b : char) : bool := N.eqb a b.

(** [str.isspace] on one character, the set used by [str.strip()] and by
    the class [\s] of [re] on [str] patterns. *)
Definition isspace (c : char) : bool :=
  ((9 <=? c) && (c <=? 13) || (28 <=? c) && (c <=? 32)
   || (c =? 133) || (c =? 160) || (c =? 5760)
   || (8192 <=? c) && (c <=? 8202)
   || (c =? 8232) || (c =? 8233) || (c =? 8239) || (c =? 8287)
   || (c =? 12288))%N.

(** [s.lstrip(...)], [s.rstrip(...)], [s.strip(...)] for a set of
    characters given as a predicate. *)
Fixpoint lstrip_with (p : char -> bool) (s : str) : str :=
  match s with
  | c :: s' => if p c then lstrip_with p s' else s
  | [] => []
  end.

Definition rstrip_with (p : char -> bool) (s : str) : str :=
  rev (lstrip_with p (rev s)).

Definition strip_with (p : char -> bool) (s : str) : str :=
  rstrip_with p (lstrip_with p s).

(** [s.strip()] *)
Definition strip (s : str) : str := strip_with isspace s.

(** [s.strip(chars)] and [s.lstrip(chars)] *)
Definition strip_chars (chars s : str) : str :=
  strip_with (fun c => existsb (eqc c) chars) s.

Definition lstrip_chars (chars s : str) : str :=
  lstrip_with (fun c => existsb (eqc c) chars) s.

(** [s.startswith(prefix)] *)
Fixpoint startswith (s prefix : str) {struct prefix} : bool :=
  match prefix, s with
  | [], _ => true
  | p :: prefix', c :: s' => eqc c p && startswith s' prefix'
  | _ :: _, [] => false
  end.

(** [s.split(sep)] for a separator of one character: never empty. *)
Fixpoint split (sep : char) (s : str) : list str :=
  match s with
  | [] => [[]]
  | c :: s' =>
      if eqc c sep then [] :: split sep s'
      else match split sep s' with
           | l :: ls => (c :: l) :: ls
           | [] => [[c]]
           end
  end.

(** [sep.join(parts)] *)
Fixpoint join (sep : str) (parts : list str) : str :=
  match parts with
  | [] => []
  | [p] => p
  | p :: ps => p ++ sep ++ join sep ps
  end.

(** The slice assignment idiom [s[:a] + x + s[b:]]. *)
Definition splice (s : str) (a b : nat) (x : str) : str :=
  firstn a s ++ x ++ skipn b s.

(** Truth value of a sequence: non-empty. *)
Definition truthy {A} (l : list A) : bool :=
  match l with [] => false | _ => true end.

Definition newline : char := 10%N.

(** [s.count(c)] for one character. *)
Definition count (c : char) (s : str) : nat := count_occ N.eq_dec s c.

End Py.

(* ===================================================================== *)
(** ** The regular expressions of the renderer *)
(* ===================================================================== *)

(** The patterns of the source are written as regular expressions and run
    by a backtracking matcher with the priorities of [re]: a sequence is
    tried from left to right, a greedy repetition tries the longest run
    first and gives characters back one by one, a lazy repetition tries
    the shortest run first and takes characters one by one.  The patterns
    of the source need literals, classes, the repetitions [*], [+], [*?],
    [+?], [{3,}] of a class, one group, [^] and [$].  In the comments the
    group around [\s*] is written with spaces inside its parentheses. *)

Module Re.
Import Py.

(** A match object: [m.start()], [m.end()] and [m.group(1)];
    [len(m.group(0))] is [m.end() - m.start()]. *)
Record Match := { m_start : nat; m_end : nat; m_group1 : str }.

(** One item of a pattern. *)
Inductive node :=
| Lit (c : char)                            (* a literal character *)
| In_ (p : char -> bool)                    (* a class: [..], \s, \d *)
| Star (greedy : bool) (p : char -> bool)   (* class* and class*? *)
| Open                                      (* the ( of group 1 *)
| Close                                     (* the ) of group 1 *)
| Bol                                       (* ^ *)
| Eol.                                      (* $ *)

Definition regex := list node.

(** [class+] and [class+?] are one character of the class and then
    [class*] or [class*?]. *)
Definition plus (greedy : bool) (p : char -> bool) : regex :=
  [In_ p; Star greedy p].

(** The class [[^c]]. *)
Definition isnot (c : char) : char -> bool := fun x => negb (eqc x c).

(** The state of a match attempt: the number of characters consumed since
    the position where the attempt started, and group 1 so far. *)
Record mstate := { consumed : nat; recording : bool; group1 : str }.

Definition advance (c : char) (st : mstate) : mstate :=
  {| consumed := S (consumed st);
     recording := recording st;
     group1 := if recording st then group1 st ++ [c] else group1 st |}.

(** What is left of the pattern, as a function of what is left of the
    string. *)
Definition cont := str -> mstate -> option mstate.

Definition one (p : char -> bool) (k : cont) : cont :=
  fun s st =>
    match s with
    | c :: s' => if p c then k s' (advance c st) else None
    | [] => None
    end.

Fixpoint star_greedy (p : char -> bool) (k : cont) (s : str) (st : mstate)
  : option mstate :=
  match s with
  | c :: s' =>
      if p c then
        match star_greedy p k s' (advance c st) with
        | Some r => Some r
        | None => k s st
        end
      else k s st
  | [] => k s st
  end.

Fixpoint star_lazy (p : char -> bool) (k : cont) (s : str) (st : mstate)
  : option mstate :=
  match k s st with
  | Some r => Some r
  | None =>
      match s with
      | c :: s' => if p c then star_lazy p k s' (advance c st) else None
      | [] => None
      end
  end.

Definition star (greedy : bool) (p : char -> bool) (k : cont) : cont :=
  if greedy then star_greedy p k else star_lazy p k.

(** [^] holds where nothing is consumed yet: the patterns that have it
    are only tried at the start of the string.  [$] holds at the end of
    the string and before a newline that ends it. *)
Fixpoint compile (r : regex) (k : cont) : cont :=
  match r with
  | [] => k
  | Lit c :: r' => one (fun x => eqc x c) (compile r' k)
  | In_ p :: r' => one p (compile r' k)
  | Star greedy p :: r' => star greedy p (compile r' k)
  | Open :: r' =>
      fun s st =>
        compile r' k s
          {| consumed := consumed st; recording := true; group1 := [] |}
  | Close :: r' =>
      fun s st =>
        compile r' k s
          {| consumed := consumed st; recording := false;
             group1 := group1 st |}
  | Bol :: r' =>
      fun s st => if consumed st =? 0 then compile r' k s st else None
  | Eol :: r' =>
      fun s st =>
        match s with
        | [] => compile r' k s st
        | [c] => if eqc c newline then compile r' k s st else None
        | _ => None
        end
  end.

Definition accept : cont := fun _ st => Some st.

(** One match attempt at the head of [s]: the length of the match and
    group 1. *)
Definition exec (r : regex) (s : str) : option (nat * str) :=
  match compile r accept s
          {| consumed := 0; recording := false; group1 := [] |} with
  | Some st => Some (consumed st, group1 st)
  | None => None
  end.

(** The truth value of [re.match(pattern, s)]. *)
Definition matches (r : regex) (s : str) : bool :=
  match exec r s with Some _ => true | None => false end.

(** [re.sub(pattern, template, s)] for a pattern that starts with [^] and
    matches no empty string: without [re.MULTILINE] index 0 is the only
    place where it can match.  The template is a function of group 1 and
    group 0. *)
Definition sub_at_start (r : regex) (template : str -> str -> str)
           (s : str) : str :=
  match exec r s with
  | Some (len, g1) => template g1 (firstn len s) ++ skipn len s
  | None => s
  end.

(** Longest prefix whose characters satisfy [p], and the rest. *)
Fixpoint span (p : char -> bool) (s : str) : str * str :=
  match s with
  | c :: s' =>
      if p c then let (a, b) := span p s' in (c :: a, b) else ([], s)
  | [] => ([], [])
  end.

(** [s] without the prefix [pre], when it starts with it. *)
Fixpoint strip_prefix (pre s : str) {struct pre} : option str :=
  match pre, s with
  | [], _ => Some s
  | p :: pre', c :: s' => if eqc c p then strip_prefix pre' s' else None
  | _ :: _, [] => None
  end.

(** What the delimited patterns [`([^`]+)`], [~~([^~]+?)~~],
    [\*\*\*([^*]+?)\*\*\*], [\*\*([^*]+?)\*\*] and [\*([^*]+?)\*] come to
    ([ReFacts.exec_delimited]): [n] copies of the delimiter [c], the
    maximal run of characters other than [c], not empty, [n] copies of
    [c].  The length of the match and group 1. *)
Definition match_delimited (c : char) (n : nat) (s : str)
  : option (nat * str) :=
  match strip_prefix (repeat c n) s with
  | Some s1 =>
      let (content, s2) := span (fun x => negb (eqc x c)) s1 in
      match content with
      | [] => None
      | _ :: _ =>
          match strip_prefix (repeat c n) s2 with
          | Some _ => Some (n + length content + n, content)
          | None => None
          end
      end
  | None => None
  end.

(** What the link pattern [\[([^\]]+?)\]\([^\)]+?\)] comes to
    ([ReFacts.exec_link]). *)
Definition match_link (s : str) : option (nat * str) :=
  match s with
  | c :: s1 =>
      if eqc c (chr "[") then
        let (label, s2) := span (fun x => negb (eqc x (chr "]"))) s1 in
        match label with
        | [] => None
        | _ :: _ =>
            match strip_prefix (lit "](") s2 with
            | Some s3 =>
                let (url, s4) := span (fun x => negb (eqc x (chr ")"))) s3 in
                match url, s4 with
                | _ :: _, _ :: _ =>
                    Some (1 + length label + 2 + length url + 1, label)
                | _, _ => None
                end
            | None => None
            end
        end
      else None
  | [] => None
  end.

(** The scan of [re.finditer]: the pattern is tried at every position from
    left to right and the scan resumes at the end of each match (no
    pattern here matches the empty string).  [matcher] is the match
    attempt at the head of a string; [pos] is the index of the head of [s]
    in the whole string, [skip] the number of characters still covered by
    the last match. *)
Fixpoint finditer_from (matcher : str -> option (nat * str))
         (s : str) (pos skip : nat) : list Match :=
  match s with
  | [] => []
  | _ :: s' =>
      match skip with
      | S k => finditer_from matcher s' (S pos) k
      | O =>
          match matcher s with
          | Some (len, g1) =>
              {| m_start := pos; m_end := pos + len; m_group1 := g1 |}
                :: finditer_from matcher s' (S pos) (len - 1)
          | None => finditer_from matcher s' (S pos) 0
          end
      end
  end.

Definition scan (matcher : str -> option (nat * str)) (s : str)
  : list Match :=
  finditer_from matcher s 0 0.

(** [list(re.finditer(pattern, s))], for a pattern without [^]. *)
Definition finditer (r : regex) (s : str) : list Match :=
  scan (exec r) s.

(** The delimited patterns, by their delimiter and its length. *)
Definition delimited (greedy : bool) (c : char) (n : nat) : regex :=
  map Lit (repeat c n) ++ [Open] ++ plus greedy (isnot c) ++ [Close]
  ++ map Lit (repeat c n).

(** The state after a run of characters. *)
Definition advance_run (run : str) (st : mstate) : mstate :=
  fold_left (fun st c => advance c st) run st.

(** What a matcher must guarantee for the scan: the match is not empty,
    lies inside the string, and group 1 together with the [removed]
    characters makes up the whole match. *)
Definition matcher_ok (matcher : str -> option (nat * str))
           (removed : Match -> nat) : Prop :=
  forall s len g, matcher s = Some (len, g) ->
    0 < len <= length s /\
    forall pos,
      length g
      + removed {| m_start := pos; m_end := pos + len; m_group1 := g |}
      = len.

(** The matches of a scan come from left to right without overlap:
    each starts at or after [lo] and the end of the one before, and the
    last ends at or before [hi]. *)
Fixpoint chained (removed : Match -> nat) (lo hi : nat) (ms : list Match)
  : Prop :=
  match ms with
  | [] => lo <= hi
  | m :: ms' =>
      lo <= m_start m /\
      m_start m + length (m_group1 m) + removed m = m_end m /\
      chained removed (m_end m) hi ms'
  end.

End Re.

(* ===================================================================== *)
(** ** The inline formatter *)
(* ===================================================================== *)

Module Inline.
Import Py Re.

(** The ['type'] of a format record; the same names are Tk tags. *)
Inductive fmt_type :=
  inline_code | strikethrough | bold_italic | bold | italic | link.

(** A format record [{'start': .., 'end': .., 'type': ..}]. *)
Record fmt := { fmt_start : Z; fmt_end : Z; fmt_kind : fmt_type }.

Definition fmt_of (s e : Z) (k : fmt_type) : fmt :=
  {| fmt_start := s; fmt_end := e; fmt_kind := k |}.

(** The local variables [processed_text], [formats] and [offset] of
    [_process_inline_formatting]. *)
Record fstate := {
  processed_text : str;
  formats : list fmt;
  offset : nat
}.

(** [_position_in_ranges(start, end, ranges, offset)] *)
Definition _position_in_ranges (start end_ : nat)
           (ranges : list (nat * nat)) (offset : nat) : bool :=
  let adjusted_start := start + offset in
  let adjusted_end := end_ + offset in
  existsb (fun r : nat * nat =>
             let (range_start, range_end) := r in
             (adjusted_start <? range_end) && (range_start <? adjusted_end))
          ranges.

(** Body of the loop of pass 1 (inline code): always accepted, the start
    is recorded as [start - offset]. *)
Definition code_step (st : fstate) (m : Match) : fstate :=
  let start := m_start m in
  let content := m_group1 m in
  {| processed_text := splice (processed_text st) start (m_end m) content;
     formats := formats st ++
       [{| fmt_start := Z.of_nat start - Z.of_nat (offset st);
           fmt_end := Z.of_nat start - Z.of_nat (offset st)
                      + Z.of_nat (length content);
           fmt_kind := inline_code |}];
     offset := offset st + 2 |}.

(** Body of the loop of passes 2 to 6: the match is skipped when
    [_position_in_ranges] reports an overlap with a code range; [removed]
    is the amount added to [offset]. *)
Definition format_step (code_ranges : list (nat * nat)) (kind : fmt_type)
           (removed : Match -> nat) (st : fstate) (m : Match) : fstate :=
  let start := m_start m in
  if negb (_position_in_ranges start (m_end m) code_ranges (offset st)) then
    let content := m_group1 m in
    {| processed_text := splice (processed_text st) start (m_end m) content;
       formats := formats st ++
         [{| fmt_start := Z.of_nat start;
             fmt_end := Z.of_nat start + Z.of_nat (length content);
             fmt_kind := kind |}];
       offset := offset st + removed m |}
  else st.

(** One pass of 2 to 6: [finditer] on the current text, then the matches
    in reverse order. *)
Definition format_pass (code_ranges : list (nat * nat))
           (pattern : regex) (kind : fmt_type)
           (removed : Match -> nat) (st : fstate) : fstate :=
  let matches := finditer pattern (processed_text st) in
  fold_left (format_step code_ranges kind removed) (rev matches) st.

(** [r'`([^`]+)`'] *)
Definition code_pattern : regex :=
  [Lit (chr "`"); Open] ++ plus true (isnot (chr "`"))
  ++ [Close; Lit (chr "`")].

(** [r'~~([^~]+?)~~'] *)
Definition strikethrough_pattern : regex :=
  [Lit (chr "~"); Lit (chr "~"); Open] ++ plus false (isnot (chr "~"))
  ++ [Close; Lit (chr "~"); Lit (chr "~")].

(** [r'\*\*\*([^*]+?)\*\*\*'] *)
Definition bold_italic_pattern : regex :=
  [Lit (chr "*"); Lit (chr "*"); Lit (chr "*"); Open]
  ++ plus false (isnot (chr "*"))
  ++ [Close; Lit (chr "*"); Lit (chr "*"); Lit (chr "*")].

(** [r'\*\*([^*]+?)\*\*'] *)
Definition bold_pattern : regex :=
  [Lit (chr "*"); Lit (chr "*"); Open] ++ plus false (isnot (chr "*"))
  ++ [Close; Lit (chr "*"); Lit (chr "*")].

(** [r'\*([^*]+?)\*'] *)
Definition italic_pattern : regex :=
  [Lit (chr "*"); Open] ++ plus false (isnot (chr "*"))
  ++ [Close; Lit (chr "*")].

(** [r'\[([^\]]+?)\]\([^\)]+?\)'] *)
Definition link_pattern : regex :=
  [Lit (chr "["); Open] ++ plus false (isnot (chr "]"))
  ++ [Close; Lit (chr "]"); Lit (chr "(")]
  ++ plus false (isnot (chr ")")) ++ [Lit (chr ")")].

(** [len(match.group(0)) - len(content)] *)
Definition link_removed (m : Match) : nat :=
  (m_end m - m_start m) - length (m_group1 m).

(** The six passes of [_process_inline_formatting], with the final value
    of every local variable. *)
Definition inline_passes (text : str) : fstate :=
  let code_matches := finditer code_pattern text in
  let code_ranges := map (fun m => (m_start m, m_end m)) code_matches in
  let st1 := fold_left code_step (rev code_matches)
               {| processed_text := text; formats := []; offset := 0 |} in
  let st2 := format_pass code_ranges strikethrough_pattern strikethrough
               (fun _ => 4) st1 in
  let st3 := format_pass code_ranges bold_italic_pattern bold_italic
               (fun _ => 6) st2 in
  let st4 := format_pass code_ranges bold_pattern bold (fun _ => 4) st3 in
  let st5 := format_pass code_ranges italic_pattern italic
               (fun _ => 2) st4 in
  format_pass code_ranges link_pattern link link_removed st5.

(** Two formats overlap when each starts before the other ends; a list
    is free of overlaps when no two of its formats do. *)
Definition overlaps (a b : fmt) : bool :=
  ((fmt_start a <? fmt_end b) && (fmt_start b <? fmt_end a))%Z.

Fixpoint non_overlapping (fs : list fmt) : bool :=
  match fs with
  | [] => true
  | f :: fs' =>
      forallb (fun g => negb (overlaps f g)) fs' && non_overlapping fs'
  end.

(** The characters of [text] between the start and the end of a format,
    both clipped to the text. *)
Definition covered (text : str) (f : fmt) : str :=
  skipn (Z.to_nat (fmt_start f)) (firstn (Z.to_nat (fmt_end f)) text).

(** [_process_inline_formatting(text)]: the dictionary
    [{'text': processed_text, 'formats': formats}]. *)
Definition _process_inline_formatting (text : str) : str * list fmt :=
  let st := inline_passes text in
  (processed_text st, formats st).

End Inline.

(* ===================================================================== *)
(** ** The Tk text widget, as far as the renderer uses it *)
(* ===================================================================== *)

Module Tk.
Import Py.

(** Tag names: ["h{n}"], the block styles and the inline format types. *)
Inductive tag :=
| h (n : nat)
| code_block
| blockquote
| list_item
| normal
| fmt_tag (t : Inline.fmt_type).

(** A text index.  Every index the renderer builds has the form
    ["1.0+a c+b c..."], a number of characters counted from the start of
    the widget: [At n] stands for it, with [n] the sum of the counts
    (a count below zero moves backwards).  [END] is [tk.END]. *)
Inductive index := At (n : Z) | END.

(** The widget: its text (without the final newline Tk always keeps) and
    the [tag_add] requests received since the text was last emptied. *)
Record Text := {
  content : str;
  tag_ranges : list (tag * index * index)
}.

(** Tk clips an index to the text. *)
Definition resolve (w : Text) (i : index) : nat :=
  match i with
  | At n => Nat.min (Z.to_nat n) (length (content w))
  | END => length (content w)
  end.

(** [self.insert(index, chars)] *)
Definition insert (i : index) (chars : str) (w : Text) : Text :=
  let p := resolve w i in
  {| content := firstn p (content w) ++ chars ++ skipn p (content w);
     tag_ranges := tag_ranges w |}.

(** [self.tag_add(tag, index1, index2)] *)
Definition tag_add (t : tag) (i1 i2 : index) (w : Text) : Text :=
  {| content := content w;
     tag_ranges := tag_ranges w ++ [(t, i1, i2)] |}.

(** The block tags: every tag but the inline format types. *)
Definition is_block_tag (t : tag) : bool :=
  match t with
  | fmt_tag _ => false
  | _ => true
  end.

(** What a tag range covers: the characters of the text between its two
    indexes, each clipped to the text as Tk does. *)
Definition tagged (w : Text) (i1 i2 : index) : str :=
  skipn (resolve w i1) (firstn (resolve w i2) (content w)).

(** A range of a block tag between two character counts that lie in the
    first [n] characters, the first count below the second.  Nothing is
    asked of the range of an inline format. *)
Definition block_range_within (n : nat) (r : tag * index * index)
  : Prop :=
  match r with
  | (fmt_tag _, _, _) => True
  | (_, At a, At b) => (0 <= a < b)%Z /\ (b <= Z.of_nat n)%Z
  | (_, _, _) => False
  end.

(** A widget with no text. *)
Definition empty : Text := {| content := []; tag_ranges := [] |}.

(** [self.delete(1.0, tk.END)]: the text goes and its tag ranges with it. *)
Definition delete_all (w : Text) : Text :=
  {| content := []; tag_ranges := [] |}.

End Tk.

(* ===================================================================== *)
(** ** The class [MarkdownText] *)
(* ===================================================================== *)

Module MarkdownText.
Import Py Re Inline Tk.

(** The class [\d] of [re] on [str] patterns is every Unicode decimal
    digit, a table of the interpreter's Unicode database.  The renderer is
    written over any such table: on ASCII it is ['0'..'9'], no decimal
    digit is white space, and the bullet is no digit. *)
Definition ascii_digit (c : char) : bool := ((48 <=? c) && (c <=? 57))%N.

(** The bullet U+2022 and the rule glyph U+2500 of the source. *)
Definition bullet : char := 8226%N.
Definition rule_glyph : char := 9472%N.

Class UnicodeDigits := {
  isdecimal : char -> bool;
  isdecimal_ascii : forall c, (c < 128)%N -> isdecimal c = ascii_digit c;
  isdecimal_not_space : forall c, isdecimal c = true -> isspace c = false;
  isdecimal_bullet : isdecimal bullet = false
}.

Definition is_list_marker (c : char) : bool :=
  eqc c (chr "-") || eqc c (chr "*") || eqc c (chr "+").

Definition is_rule_char (c : char) : bool :=
  eqc c (chr "-") || eqc c (chr "*") || eqc c (chr "_").

(** [r'^\s*[-*+]\s+'], the test of the list branch, and
    [r'^( \s* )[-*+]\s+'], the pattern of its first substitution. *)
Definition unordered_test : regex :=
  [Bol; Star true isspace; In_ is_list_marker] ++ plus true isspace.

Definition unordered_sub : regex :=
  [Bol; Open; Star true isspace; Close; In_ is_list_marker]
  ++ plus true isspace.

(** [r'^\s*[-*_]{3,}\s*$'] *)
Definition hrule_pattern : regex :=
  [Bol; Star true isspace; In_ is_rule_char; In_ is_rule_char;
   In_ is_rule_char; Star true is_rule_char; Star true isspace; Eol].

(** What the unordered patterns come to
    ([PatternFacts.unordered_exec]): the maximal run of white space, a
    marker, the maximal run of white space, not empty.  Group 1 (the
    indentation) and what follows the match. *)
Definition match_unordered (line : str) : option (str * str) :=
  let (indent, s1) := span isspace line in
  match s1 with
  | c :: s2 =>
      if is_list_marker c then
        let (ws, rest) := span isspace s2 in
        if truthy ws then Some (indent, rest) else None
      else None
  | [] => None
  end.

(** What the rule pattern comes to ([PatternFacts.hrule_exec]). *)
Definition match_hrule (line : str) : bool :=
  let (_, s1) := span isspace line in
  let (marks, s2) := span is_rule_char s1 in
  let (_, s3) := span isspace s2 in
  (3 <=? length marks) && negb (truthy s3).

(** [re.sub(r'^( \s* )[-*+]\s+', r'\1• ', line)] *)
Definition sub_unordered (line : str) : str :=
  sub_at_start unordered_sub (fun g1 _ => g1 ++ [bullet; chr " "]) line.

(** [line.strip().startswith('```')] *)
Definition is_fence (line : str) : bool :=
  startswith (strip line) (lit "```").

(** [line.strip().startswith('>')] *)
Definition is_quote (line : str) : bool :=
  startswith (strip line) (lit ">").

(** The number of ['#'] at the head of [line] (the [for char in line]
    loop). *)
Fixpoint hash_count (line : str) : nat :=
  match line with
  | c :: line' => if eqc c (chr "#") then S (hash_count line') else 0
  | [] => 0
  end.

(** [line.strip('#').strip()] *)
Definition title_text (line : str) : str :=
  strip (strip_chars (lit "#") line).

(** The inner loop of the code-block branch,
    [while i < len(lines) and not lines[i].strip().startswith('```')]:
    [rest] is [lines[i:]]; returns [code_lines] and [lines[i:]] at exit. *)
Fixpoint fence_scan (rest : list str) (code_lines : list str)
  : list str * list str :=
  match rest with
  | [] => (code_lines, [])
  | l :: rest' =>
      if is_fence l then (code_lines, rest)
      else fence_scan rest' (code_lines ++ [l])
  end.

(** The inner loop of the quote branch,
    [while i < len(lines) and lines[i].strip().startswith('>')]. *)
Fixpoint quote_scan (rest : list str) (quote_lines : list str)
  : list str * list str :=
  match rest with
  | [] => (quote_lines, [])
  | l :: rest' =>
      if is_quote l then
        quote_scan rest'
          (quote_lines ++ [strip (lstrip_chars (lit ">") (strip l))])
      else (quote_lines, rest)
  end.

(** The four statements every block branch repeats: insert
    [display_text] at [current_pos], tag it from [line_start] to
    [end_pos], and move [current_pos] to [end_pos]. *)
Definition emit_block (t : tag) (display_text : str) (line_start : Z)
           (w : Text) : Z * Text :=
  let w1 := insert (At line_start) display_text w in
  let end_pos := (line_start + Z.of_nat (length display_text))%Z in
  (end_pos, tag_add t (At line_start) (At end_pos) w1).

(** [_apply_format_tags(line_start_pos, formats)] *)
Definition _apply_format_tags (line_start_pos : Z) (fs : list fmt)
           (w : Text) : Text :=
  fold_left
    (fun w f =>
       tag_add (fmt_tag (fmt_kind f))
               (At (line_start_pos + fmt_start f))
               (At (line_start_pos + fmt_end f)) w)
    fs w.

(** The end of the code-block branch, once [code_lines] is known:
    [if code_lines:] the lines are inserted, joined and ended by newlines,
    under the tag ["code_block"]. *)
Definition emit_code (code_lines : list str) (line_start : Z) (w : Text)
  : Z * Text :=
  if truthy code_lines then
    emit_block code_block (join [newline] code_lines ++ [newline])
               line_start w
  else (line_start, w).

(** The paragraph branch: the line goes through the inline formatter, the
    text is inserted at [current_pos] (which is [line_start]), the formats
    are applied from [line_start], and [current_pos] moves past the
    text. *)
Definition emit_paragraph (line : str) (line_start : Z) (w : Text)
  : Z * Text :=
  let (text, fs) := _process_inline_formatting line in
  let display_text := text ++ [newline] in
  let w1 := insert (At line_start) display_text w in
  let w2 := _apply_format_tags line_start fs w1 in
  ((line_start + Z.of_nat (length display_text))%Z, w2).

(** No line of [ls] opens or closes a fence. *)
Definition no_fence (ls : list str) : bool :=
  forallb (fun l => negb (is_fence l)) ls.

(** [ls] is empty or begins with a fence line. *)
Definition fence_or_end (ls : list str) : Prop :=
  match ls with
  | [] => True
  | l :: _ => is_fence l = true
  end.

(** The heading branch succeeds with a level and a title, or falls
    through. *)
Definition heading_of (line : str) : option (nat * str) :=
  if startswith (strip line) (lit "#") then
    let n := hash_count line in
    if n <=? 4 then
      let t := title_text line in
      if truthy t then Some (n, t) else None
    else None
  else None.

(** [current_pos] is the end of the text of the widget. *)
Definition at_end (pos : Z) (w : Text) : Prop :=
  pos = Z.of_nat (length (content w)).

(** The heading a line makes when read as the specification words it:
    the stripped line starts with one to four ['#'] followed by another
    character, the level is the length of that run, and the text is the
    stripped line without the run and without one space after it. *)
Definition claimed_heading (line : str) : option (nat * str) :=
  let t := strip line in
  let n := hash_count t in
  if (1 <=? n) && (n <=? 4) then
    match skipn n t with
    | [] => None
    | c :: r => Some (n, if eqc c (chr " ") then r else c :: r)
    end
  else None.

(** The turn of the loop on such a heading, and on a line displayed as a
    paragraph of its literal text, again as the specification words
    them. *)
Definition claimed_heading_turn (line : str) (rest : list str) (pos : Z)
           (w : Text) : option (list str * Z * Text) :=
  match claimed_heading line with
  | Some (n, t) =>
      let (pos', w') := emit_block (h n) (t ++ [newline]) pos w in
      Some (rest, pos', w')
  | None => None
  end.

Definition claimed_literal_paragraph (line : str) (rest : list str)
           (pos : Z) (w : Text) : list str * Z * Text :=
  (rest, (pos + Z.of_nat (length (line ++ [newline])))%Z,
   insert (At pos) (line ++ [newline]) w).

Section Render.
Context {UD : UnicodeDigits}.

(** [r'^\s*\d+\.\s+'], the other test of the list branch, and
    [r'^( \s* )\d+\.\s+'], the pattern of its second substitution. *)
Definition ordered_test : regex :=
  [Bol; Star true isspace] ++ plus true isdecimal ++ [Lit (chr ".")]
  ++ plus true isspace.

Definition ordered_sub : regex :=
  [Bol; Open; Star true isspace; Close] ++ plus true isdecimal
  ++ [Lit (chr ".")] ++ plus true isspace.

(** What the ordered patterns come to ([PatternFacts.ordered_exec]):
    group 1, group 0 and what follows the match. *)
Definition match_ordered (line : str) : option (str * str * str) :=
  let (indent, s1) := span isspace line in
  let (digits, s2) := span isdecimal s1 in
  match digits, s2 with
  | _ :: _, c :: s3 =>
      if eqc c (chr ".") then
        let (ws, rest) := span isspace s3 in
        if truthy ws then
          Some (indent, indent ++ digits ++ [c] ++ ws, rest)
        else None
      else None
  | _, _ => None
  end.

(** [re.sub(r'^( \s* )\d+\.\s+', r'\1\g<0>', clean_line)] *)
Definition sub_ordered (clean_line : str) : str :=
  sub_at_start ordered_sub (fun g1 g0 => g1 ++ g0) clean_line.

(** The test of the list branch:
    [re.match(r'^\s*[-*+]\s+', line) or re.match(r'^\s*\d+\.\s+', line)]. *)
Definition is_list_item (line : str) : bool :=
  matches unordered_test line || matches ordered_test line.

(** One turn of the [while i < len(lines)] loop with [line = lines[i]] and
    [rest = lines[i+1:]]: the lines left for the next turn, the new
    [current_pos] and the widget. *)
Definition loop_body (line : str) (rest : list str) (current_pos : Z)
           (w : Text) : list str * Z * Text :=
  let line_start := current_pos in
  if is_fence line then
    let (code_lines, after) := fence_scan rest [] in
    let (pos, w') := emit_code code_lines line_start w in
    (tl after, pos, w')
  else
    match heading_of line with
    | Some (n, t) =>
        let (pos, w') := emit_block (h n) (t ++ [newline]) line_start w in
        (rest, pos, w')
    | None =>
        if is_quote line then
          let (quote_lines, after) := quote_scan (line :: rest) [] in
          let (pos, w') :=
            if truthy quote_lines then
              emit_block blockquote
                         (join [newline] quote_lines ++ [newline])
                         line_start w
            else (current_pos, w) in
          (after, pos, w')
        else if is_list_item line then
          let clean_line := sub_ordered (sub_unordered line) in
          let (pos, w') :=
            emit_block list_item (clean_line ++ [newline]) line_start w in
          (rest, pos, w')
        else if matches hrule_pattern line then
          let (pos, w') :=
            emit_block normal (repeat rule_glyph 50 ++ [newline])
                       line_start w in
          (rest, pos, w')
        else
          let (pos, w') := emit_paragraph line line_start w in
          (rest, pos, w')
    end.

(** The [while i < len(lines)] loop; [lines] is [lines[i:]].  It returns
    the final [current_pos] and the widget, or [None] when the fuel runs
    out before the loop ends. *)
Fixpoint render_loop (fuel : nat) (lines : list str) (current_pos : Z)
         (w : Text) : option (Z * Text) :=
  match lines with
  | [] => Some (current_pos, w)
  | line :: rest =>
      match fuel with
      | O => None
      | S fuel' =>
          let '(lines', pos, w') := loop_body line rest current_pos w in
          render_loop fuel' lines' pos w'
      end
  end.

(** The loop with one unit of fuel for each line. *)
Definition render_lines (lines : list str) (current_pos : Z) (w : Text)
  : option (Z * Text) :=
  render_loop (length lines) lines current_pos w.

(** [_render_markdown_text(text)]: [current_pos] starts at ["1.0"]. *)
Definition _render_markdown_text (text : str) (w : Text) : option Text :=
  if negb (truthy text) then Some w
  else option_map snd (render_lines (split newline text) 0%Z w).

(** The instance attributes [raw_content] and [markdown_enabled], and the
    widget's own text. *)
Record widget := {
  raw_content : str;
  markdown_enabled : bool;
  display : Text
}.

(** [render_as_markdown()] *)
Definition render_as_markdown (self : widget) : option widget :=
  match _render_markdown_text (raw_content self)
                              (delete_all (display self)) with
  | Some w =>
      Some {| raw_content := raw_content self;
              markdown_enabled := markdown_enabled self;
              display := w |}
  | None => None
  end.

(** [render_as_plain_text()] *)
Definition render_as_plain_text (self : widget) : widget :=
  let w1 := delete_all (display self) in
  let w2 := insert (At 0) (raw_content self) w1 in
  {| raw_content := raw_content self;
     markdown_enabled := markdown_enabled self;
     display := tag_add normal (At 0) END w2 |}.

(** [switch_render_mode(markdown_enabled)] *)
Definition switch_render_mode (enabled : bool) (self : widget)
  : option widget :=
  let self' := {| raw_content := raw_content self;
                  markdown_enabled := enabled;
                  display := display self |} in
  if enabled then render_as_markdown self'
  else Some (render_as_plain_text self').

(** What the quote branch keeps of one line:
    [lines[i].strip().lstrip('>').strip()]. *)
Definition quote_text (line : str) : str :=
  strip (lstrip_chars (lit ">") (strip line)).

(** The characters that can start a block other than a paragraph. *)
Definition block_marker (c : char) : bool :=
  existsb (eqc c) (lit "`#>-*+_").

(** [ls] is empty or begins with a line that is no quote. *)
Definition quote_ends (ls : list str) : Prop :=
  match ls with
  | [] => True
  | l :: _ => is_quote l = false
  end.

(** [append_raw_text(text, end)] *)
Definition append_raw_text (text end_ : str) (self : widget) : widget :=
  let raw := raw_content self ++ text in
  {| raw_content := if truthy end_ then raw ++ end_ else raw;
     markdown_enabled := markdown_enabled self;
     display := display self |}.

(** [get_raw_content()] *)
Definition get_raw_content (self : widget) : str := raw_content self.

(** [set_raw_content(content)] *)
Definition set_raw_content (content : str) (self : widget) : widget :=
  {| raw_content := content;
     markdown_enabled := markdown_enabled self;
     display := display self |}.

(** [clear_all()] *)
Definition clear_all (self : widget) : widget :=
  {| raw_content := [];
     markdown_enabled := markdown_enabled self;
     display := delete_all (display self) |}.

(** [append_and_render(text, end, markdown_enabled)] *)
Definition append_and_render (text end_ : str) (enabled : bool)
           (self : widget) : option widget :=
  let self' := append_raw_text text end_ self in
  if enabled then render_as_markdown self'
  else Some (render_as_plain_text self').

(** [get_line_count()] *)
Definition get_line_count (self : widget) : nat :=
  length (split newline (raw_content self)).

(** [_append_streaming_content(content)] of [chat_handler.py], on a GUI
    whose output is a [MarkdownText]: the chunk is appended with
    [end=""] and the whole buffer is rendered again in the mode of the
    GUI. *)
Definition _append_streaming_content (gui_markdown_enabled : bool)
           (content : str) (self : widget) : option widget :=
  let self' := append_raw_text content [] self in
  if gui_markdown_enabled then render_as_markdown self'
  else Some (render_as_plain_text self').

(** The calls of [_append_streaming_content] for the chunks of a stream,
    in the order they arrive. *)
Definition stream (gui_markdown_enabled : bool) (chunks : list str)
           (self : widget) : option widget :=
  fold_left
    (fun acc chunk =>
       match acc with
       | Some s => _append_streaming_content gui_markdown_enabled chunk s
       | None => None
       end)
    chunks (Some self).

(** The calls [append_and_render(text, end, markdown_enabled)] that
    [print_out] of [gui_main.py] makes for a list of messages, each with
    its [end]. *)
Definition append_all (enabled : bool) (msgs : list (str * str))
           (self : widget) : option widget :=
  fold_left
    (fun acc m =>
       match acc with
       | Some s => append_and_render (fst m) (snd m) enabled s
       | None => None
       end)
    msgs (Some self).

(** The text one line adds to the display when the loop reaches it
    outside a code block: the branches of [loop_body] after the fence
    test, a quote line taken alone. *)
Definition line_text (line : str) : str :=
  match heading_of line with
  | Some (_, t) => t ++ [newline]
  | None =>
      if is_quote line then
        strip (lstrip_chars (lit ">") (strip line)) ++ [newline]
      else if is_list_item line then
        sub_ordered (sub_unordered line) ++ [newline]
      else if matches hrule_pattern line then
        repeat rule_glyph 50 ++ [newline]
      else fst (_process_inline_formatting line) ++ [newline]
  end.

(** The text the loop adds to the display for [lines], read line by
    line: a fence line adds nothing and opens or closes a code block, a
    line inside a code block is added as it is, any other line adds its
    [line_text].  [in_code] tells whether a code block is open. *)
Fixpoint shown_text (in_code : bool) (lines : list str) : str :=
  match lines with
  | [] => []
  | l :: ls =>
      if is_fence l then shown_text (negb in_code) ls
      else (if in_code then l ++ [newline] else line_text l)
           ++ shown_text in_code ls
  end.

(** A line without markdown: the first character after the leading
    white space, if any, starts no block, and the line has too few
    delimiters for any inline pattern. *)
Definition plain_line (line : str) : Prop :=
  match strip line with
  | [] => True
  | c :: _ => block_marker c = false /\ isdecimal c = false
  end
  /\ count (chr "`") line < 2
  /\ count (chr "~") line < 4
  /\ count (chr "*") line < 2
  /\ (count (chr "[") line = 0 \/ count (chr "]") line = 0
      \/ count (chr "(") line = 0 \/ count (chr ")") line = 0).

(** Whether a code block is open after [lines]. *)
Definition open_after (in_code : bool) (lines : list str) : bool :=
  fold_left (fun b l => if is_fence l then negb b else b) lines in_code.

End Render.

(** The stand-in [MarkdownText] of [gui_main.py], used when the module
    cannot be imported: a plain text widget whose [append_and_render]
    inserts [text + end] at [tk.END] and whose [clear_all] empties it. *)
Module Fallback.

Definition append_and_render (text end_ : str) (enabled : bool)
           (w : Text) : Text :=
  insert END (text ++ end_) w.

Definition clear_all (w : Text) : Text := delete_all w.

(** The same calls of [print_out] on the fallback class. *)
Definition append_all (enabled : bool) (msgs : list (str * str))
           (w : Text) : Text :=
  fold_left (fun w m => append_and_render (fst m) (snd m) enabled w)
            msgs w.

End Fallback.

(** The table restricted to ASCII, for closed examples. *)
#[export] Program Instance ascii_digits : UnicodeDigits :=
  {| isdecimal := ascii_digit |}.
Next Obligation.
  unfold ascii_digit, isspace in *.
  apply andb_true_iff in H as [H1 H2].
  apply N.leb_le in H1, H2.
  repeat match goal with
         | |- context [(?a <=? ?b)%N] =>
             destruct (N.leb_spec a b); try lia
         | |- context [(?a =? ?b)%N] =>
             destruct (N.eqb_spec a b); try lia
         end; reflexivity.
Qed.

End MarkdownText.

(* ===================================================================== *)
(** ** Facts about the matchers *)
(* ===================================================================== *)

Module ReFacts.
Import Py Re.

Lemma span_app p s : forall a b, span p s = (a, b) -> s = a ++ b.
Proof.
  induction s as [|c s IH]; simpl; intros a b E.
  - now inversion E.
  - destruct (p c).
    + destruct (span p s) as [a' b'] eqn:E'. inversion E; subst.
      simpl. f_equal. now apply IH.
    + now inversion E.
Qed.

Lemma span_length p s a b :
  span p s = (a, b) -> length s = length a + length b.
Proof.
  intros E. rewrite (span_app _ _ _ _ E). apply length_app.
Qed.

Lemma span_all p s a b : span p s = (a, b) -> forallb p a = true.
Proof.
  revert a b. induction s as [|c s IH]; simpl; intros a b E.
  - now inversion E.
  - destruct (p c) eqn:Ec.
    + destruct (span p s) as [a' b'] eqn:E'. inversion E; subst.
      simpl. rewrite Ec. simpl. eauto.
    + now inversion E.
Qed.

Lemma span_rest_head p s a c b : span p s = (a, c :: b) -> p c = false.
Proof.
  revert a. induction s as [|d s IH]; simpl; intros a E.
  - inversion E.
  - destruct (p d) eqn:Ed.
    + destruct (span p s) as [a' b'] eqn:E'. inversion E; subst. eauto.
    + inversion E; subst. assumption.
Qed.

Lemma span_none p c s : p c = false -> span p (c :: s) = ([], c :: s).
Proof. intros E. simpl. now rewrite E. Qed.

Lemma span_run p a b :
  forallb p a = true -> (match b with c :: _ => p c = false | [] => True end) ->
  span p (a ++ b) = (a, b).
Proof.
  induction a as [|x a IH]; simpl; intros Ha Hb.
  - destruct b as [|c b]; simpl; [reflexivity|]. now rewrite Hb.
  - apply andb_true_iff in Ha as [Hx Ha]. rewrite Hx, IH; auto.
Qed.

Lemma strip_prefix_app pre : forall s r,
  strip_prefix pre s = Some r -> s = pre ++ r.
Proof.
  induction pre as [|p pre IH]; simpl; intros s r E.
  - now inversion E.
  - destruct s as [|c s]; [discriminate|].
    destruct (eqc c p) eqn:Ec; [|discriminate].
    apply N.eqb_eq in Ec. subst. f_equal. auto.
Qed.

Lemma match_delimited_ok c n :
  matcher_ok (match_delimited c n) (fun _ => n + n).
Proof.
  intros s len g. unfold match_delimited.
  destruct (strip_prefix (repeat c n) s) as [s1|] eqn:E1; [|discriminate].
  destruct (span _ s1) as [content s2] eqn:E2.
  destruct content as [|x content]; [discriminate|].
  destruct (strip_prefix (repeat c n) s2) as [s3|] eqn:E3; [|discriminate].
  intros E; inversion E; subst; clear E.
  apply strip_prefix_app in E1, E3. apply span_length in E2.
  subst s. rewrite length_app, repeat_length, E2.
  subst s2. rewrite length_app, repeat_length. simpl. split; lia.
Qed.

Lemma match_link_ok : matcher_ok match_link Inline.link_removed.
Proof.
  intros s len g. unfold match_link.
  destruct s as [|c s1]; [discriminate|].
  destruct (eqc c (chr "[")); [|discriminate].
  destruct (span _ s1) as [label s2] eqn:E2.
  destruct label as [|x label]; [discriminate|].
  destruct (strip_prefix (lit "](") s2) as [s3|] eqn:E3; [|discriminate].
  destruct (span _ s3) as [url s4] eqn:E4.
  destruct url as [|y url]; [discriminate|].
  destruct s4 as [|z s4]; [discriminate|].
  intros E; inversion E; subst; clear E.
  apply strip_prefix_app in E3. apply span_length in E2, E4.
  subst s2. rewrite length_app in E2. simpl in *.
  unfold Inline.link_removed; simpl. split; [lia|]. intros pos. lia.
Qed.

Lemma chained_weaken removed lo lo' hi ms :
  lo <= lo' -> chained removed lo' hi ms -> chained removed lo hi ms.
Proof.
  destruct ms; simpl; intros; [lia|]. intuition lia.
Qed.

Lemma finditer_from_chained matcher removed :
  matcher_ok matcher removed ->
  forall s pos skip, skip <= length s ->
    chained removed (pos + skip) (pos + length s)
            (finditer_from matcher s pos skip).
Proof.
  intros Hok. induction s as [|c s IH]; simpl; intros pos skip Hskip.
  - lia.
  - destruct skip as [|k].
    + destruct (matcher (c :: s)) as [[len g]|] eqn:Em.
      * destruct (Hok _ _ _ Em) as [[Hpos Hlen] Hrem]. simpl in Hlen.
        simpl. split; [lia|]. split; [specialize (Hrem pos); lia|].
        specialize (IH (S pos) (len - 1)).
        replace (S pos + (len - 1)) with (pos + len) in IH by lia.
        replace (S pos + length s) with (pos + S (length s)) in IH by lia.
        apply IH. lia.
      * apply chained_weaken with (lo' := S pos + 0); [lia|].
        replace (pos + S (length s)) with (S pos + length s) by lia.
        apply IH. lia.
    + replace (pos + S k) with (S pos + k) by lia.
      replace (pos + S (length s)) with (S pos + length s) by lia.
      apply IH. lia.
Qed.

Lemma scan_chained matcher removed s :
  matcher_ok matcher removed ->
  chained removed 0 (length s) (scan matcher s).
Proof.
  intros Hok.
  apply (@finditer_from_chained matcher removed Hok s 0 0). lia.
Qed.

(** The scan only looks at what the matcher returns. *)
Lemma finditer_from_ext f g :
  (forall s, f s = g s) ->
  forall s pos skip, finditer_from f s pos skip = finditer_from g s pos skip.
Proof.
  intros H. induction s as [|c s IH]; simpl; intros pos skip; auto.
  destruct skip; [|apply IH]. rewrite H.
  destruct (g (c :: s)) as [[len g1]|]; [f_equal|]; apply IH.
Qed.

Lemma matcher_ok_ext f g removed :
  (forall s, f s = g s) -> matcher_ok g removed -> matcher_ok f removed.
Proof. intros H Hg s len g1 E. rewrite H in E. now apply Hg. Qed.

(** *** The repetitions of the matcher *)

Lemma advance_run_spec run : forall st,
  advance_run run st
  = {| consumed := consumed st + length run;
       recording := recording st;
       group1 := if recording st then group1 st ++ run else group1 st |}.
Proof.
  induction run as [|c run IH]; intros [n r g]; simpl.
  - rewrite Nat.add_0_r. destruct r; [now rewrite app_nil_r|reflexivity].
  - unfold advance_run in *. simpl. rewrite IH. simpl. f_equal; [lia|].
    destruct r; [now rewrite <- app_assoc|reflexivity].
Qed.

(** A repetition followed by something that cannot start with a character
    of the class stops at the end of the maximal run, greedy or lazy:
    giving characters back, or taking fewer, leaves such a character at
    the head. *)
Lemma star_span (greedy : bool) p (k : cont) :
  (forall c s' st', p c = true -> k (c :: s') st' = None) ->
  forall s st,
    star greedy p k s st
    = k (snd (span p s)) (advance_run (fst (span p s)) st).
Proof.
  intros Hk. unfold star. induction s as [|c s IH]; intros st.
  - destruct greedy; simpl; [reflexivity|]. now destruct (k [] st).
  - destruct greedy; simpl.
    + destruct (p c) eqn:Ec.
      * specialize (IH (advance c st)). simpl in IH. rewrite IH.
        destruct (span p s) as [a b]. simpl.
        destruct (k b _); [reflexivity|]. now apply Hk.
      * reflexivity.
    + destruct (p c) eqn:Ec.
      * rewrite (Hk c s st Ec). specialize (IH (advance c st)).
        simpl in IH. rewrite IH. now destruct (span p s).
      * simpl. now destruct (k (c :: s) st).
Qed.

(** A greedy repetition keeps the maximal run when what follows accepts
    it. *)
Lemma star_greedy_max p (k : cont) : forall s st r,
  k (snd (span p s)) (advance_run (fst (span p s)) st) = Some r ->
  star_greedy p k s st = Some r.
Proof.
  induction s as [|c s IH]; intros st r; simpl; [auto|].
  destruct (p c); [|auto].
  specialize (IH (advance c st) r).
  destruct (span p s) as [a b]. simpl in *. intros H.
  now rewrite (IH H).
Qed.

Lemma star_greedy_accept p s st :
  star true p accept s st = Some (advance_run (fst (span p s)) st).
Proof. unfold star. now apply star_greedy_max. Qed.

(** White space up to the end of the string: the greedy run must reach
    the end, since [$] holds nowhere else (a newline is white space). *)
Lemma star_greedy_eol s : forall st,
  star true isspace (compile [Eol] accept) s st
  = if truthy (snd (span isspace s)) then None
    else Some (advance_run (fst (span isspace s)) st).
Proof.
  unfold star. induction s as [|c s IH]; intros st; [reflexivity|].
  cbn [star_greedy span].
  destruct (isspace c) eqn:Ec.
  - rewrite IH. destruct (span isspace s) as [run rest] eqn:E.
    cbn [fst snd]. destruct rest as [|y rest]; [reflexivity|].
    cbn [truthy]. apply span_app in E. subst s.
    cbn [compile]. now destruct run.
  - cbn [fst snd truthy compile]. destruct s; [|reflexivity].
    destruct (eqc c newline) eqn:En; [|reflexivity].
    apply N.eqb_eq in En. subst c. discriminate.
Qed.

Lemma compile_app r1 r2 k :
  compile (r1 ++ r2) k = compile r1 (compile r2 k).
Proof.
  induction r1 as [|n r1 IH]; simpl; [reflexivity|].
  destruct n; now rewrite IH.
Qed.

Lemma compile_lits pre : forall k s st,
  compile (map Lit pre) k s st
  = match strip_prefix pre s with
    | Some s' => k s' (advance_run pre st)
    | None => None
    end.
Proof.
  induction pre as [|c pre IH]; intros k s st; simpl; [reflexivity|].
  destruct s as [|x s]; simpl; [reflexivity|].
  destruct (eqc x c) eqn:E; [|reflexivity].
  apply N.eqb_eq in E. subst x. apply IH.
Qed.

(** *** The inline patterns *)

(** A delimited pattern matches as [match_delimited] says, greedy or
    lazy. *)
Lemma exec_delimited greedy c n s :
  1 <= n -> exec (delimited greedy c n) s = match_delimited c n s.
Proof.
  intros Hn. unfold exec, delimited, match_delimited.
  rewrite compile_app, compile_lits.
  destruct (strip_prefix (repeat c n) s) as [s1|]; [|reflexivity].
  change (fun x => negb (eqc x c)) with (isnot c).
  cbn [app plus]. cbn [compile].
  destruct s1 as [|x s1]; [reflexivity|]. cbn [span one].
  destruct (isnot c x) eqn:Ex; [|reflexivity].
  rewrite (star_span greedy (isnot c)).
  2:{ intros y s' st' Hy. destruct n as [|n]; [lia|]. simpl.
      unfold isnot in Hy. apply negb_true_iff in Hy. now rewrite Hy. }
  destruct (span (isnot c) s1) as [run s2]. cbn [fst snd compile].
  rewrite compile_lits.
  destruct (strip_prefix (repeat c n) s2) as [s3|]; [|reflexivity].
  unfold accept. rewrite !advance_run_spec. simpl.
  rewrite repeat_length. f_equal. f_equal. lia.
Qed.

(** The link pattern matches as [match_link] says. *)
Lemma exec_link s : exec Inline.link_pattern s = match_link s.
Proof.
  unfold exec, Inline.link_pattern, match_link.
  change (fun x => negb (eqc x (chr "]"))) with (isnot (chr "]")).
  change (fun x => negb (eqc x (chr ")"))) with (isnot (chr ")")).
  cbn [app plus compile].
  destruct s as [|c s1]; [reflexivity|]. cbn [one].
  destruct (eqc c (chr "[")); [|reflexivity].
  destruct s1 as [|x s1]; [reflexivity|]. cbn [one span].
  destruct (isnot (chr "]") x) eqn:Ex; [|reflexivity].
  rewrite (star_span false (isnot (chr "]"))).
  2:{ intros y s' st' Hy. cbn [one].
      unfold isnot in Hy. apply negb_true_iff in Hy. now rewrite Hy. }
  destruct (span (isnot (chr "]")) s1) as [run s2]. cbn [fst snd].
  change (one (fun x0 => eqc x0 (chr "]"))
            (one (fun x0 => eqc x0 (chr "("))
               (one (isnot (chr ")"))
                  (star false (isnot (chr ")"))
                     (one (fun x0 => eqc x0 (chr ")")) accept)))))
    with (compile (map Lit (lit "]("))
            (one (isnot (chr ")"))
               (star false (isnot (chr ")"))
                  (one (fun x0 => eqc x0 (chr ")")) accept)))).
  rewrite compile_lits.
  destruct (strip_prefix (lit "](") s2) as [s3|]; [|reflexivity].
  destruct s3 as [|y s3]; [reflexivity|]. cbn [one span].
  destruct (isnot (chr ")") y) eqn:Ey; [|reflexivity].
  rewrite (star_span false (isnot (chr ")"))).
  2:{ intros z s' st' Hz. cbn [one].
      unfold isnot in Hz. apply negb_true_iff in Hz. now rewrite Hz. }
  destruct (span (isnot (chr ")")) s3) as [url s4] eqn:E4. cbn [fst snd].
  destruct s4 as [|z s4]; [reflexivity|]. cbn [one].
  pose proof (span_rest_head _ _ _ _ _ E4) as Hz.
  unfold isnot in Hz. apply negb_false_iff in Hz. rewrite Hz.
  unfold accept. rewrite !advance_run_spec. simpl.
  f_equal. f_equal. lia.
Qed.

(** The matches of a delimited pattern are those of the scan with
    [match_delimited]. *)
Lemma finditer_delimited greedy c n s :
  1 <= n ->
  finditer (delimited greedy c n) s = scan (match_delimited c n) s.
Proof.
  intros Hn. apply finditer_from_ext. intros t. now apply exec_delimited.
Qed.

Lemma finditer_link s :
  finditer Inline.link_pattern s = scan match_link s.
Proof. apply finditer_from_ext. apply exec_link. Qed.

Lemma exec_delimited_ok greedy c n :
  1 <= n -> matcher_ok (exec (delimited greedy c n)) (fun _ => n + n).
Proof.
  intros Hn. apply matcher_ok_ext with (g := match_delimited c n).
  - intros s. now apply exec_delimited.
  - apply match_delimited_ok.
Qed.

Lemma exec_link_ok :
  matcher_ok (exec Inline.link_pattern) Inline.link_removed.
Proof.
  apply matcher_ok_ext with (g := match_link);
    [apply exec_link|apply match_link_ok].
Qed.

End ReFacts.

(* ===================================================================== *)
(** ** The offset counter of the inline formatter *)
(* ===================================================================== *)

Module InlineFacts.
Import Py Re Inline ReFacts.

Lemma splice_length (s : str) a b x :
  a <= b -> b <= length s ->
  length (splice s a b x) + b = length s + a + length x.
Proof.
  intros Hab Hb. unfold splice.
  rewrite !length_app, length_firstn, length_skipn. lia.
Qed.

(** Both loop bodies keep [len(processed_text) + offset] and leave at
    least [start] characters, whenever the match lies inside the text. *)
Lemma code_step_length st m :
  m_start m + length (m_group1 m) + 2 = m_end m ->
  m_end m <= length (processed_text st) ->
  length (processed_text (code_step st m)) + offset (code_step st m)
  = length (processed_text st) + offset st
  /\ m_start m <= length (processed_text (code_step st m)).
Proof.
  intros Hm Hend. unfold code_step; simpl.
  pose proof (@splice_length (processed_text st) (m_start m) (m_end m)
                (m_group1 m)) as H.
  lia.
Qed.

Lemma format_step_length ranges kind removed st m :
  m_start m + length (m_group1 m) + removed m = m_end m ->
  m_end m <= length (processed_text st) ->
  let st' := format_step ranges kind removed st m in
  length (processed_text st') + offset st'
  = length (processed_text st) + offset st
  /\ m_start m <= length (processed_text st').
Proof.
  intros Hm Hend. unfold format_step; simpl.
  destruct (_position_in_ranges _ _ _ _); simpl; [lia|].
  pose proof (@splice_length (processed_text st) (m_start m) (m_end m)
                (m_group1 m)) as H.
  lia.
Qed.

(** A loop over the matches in reverse order, for any body with the
    property above. *)
Lemma reversed_loop_length (step : fstate -> Match -> fstate) removed :
  (forall st m,
      m_start m + length (m_group1 m) + removed m = m_end m ->
      m_end m <= length (processed_text st) ->
      length (processed_text (step st m)) + offset (step st m)
      = length (processed_text st) + offset st
      /\ m_start m <= length (processed_text (step st m))) ->
  forall ms lo st,
    chained removed lo (length (processed_text st)) ms ->
    let st' := fold_left step (rev ms) st in
    length (processed_text st') + offset st'
    = length (processed_text st) + offset st
    /\ lo <= length (processed_text st').
Proof.
  intros Hstep. induction ms as [|m ms IH]; simpl; intros lo st Hch.
  - lia.
  - destruct Hch as (Hlo & Hm & Hch).
    rewrite fold_left_app. simpl.
    destruct (IH _ _ Hch) as [Hsum Hend].
    destruct (Hstep (fold_left step (rev ms) st) m Hm Hend) as [H1 H2].
    lia.
Qed.

Lemma format_pass_length ranges pattern kind removed st :
  matcher_ok (exec pattern) removed ->
  let st' := format_pass ranges pattern kind removed st in
  length (processed_text st') + offset st'
  = length (processed_text st) + offset st.
Proof.
  intros Hok. unfold format_pass.
  apply (@reversed_loop_length (format_step ranges kind removed) removed
           (format_step_length ranges kind removed)
           (finditer pattern (processed_text st)) 0 st).
  now apply scan_chained.
Qed.

Lemma code_pass_length text :
  let st := fold_left code_step (rev (finditer code_pattern text))
              {| processed_text := text; formats := []; offset := 0 |} in
  length (processed_text st) + offset st = length text.
Proof.
  pose proof (@reversed_loop_length code_step (fun _ => 1 + 1)
                code_step_length (finditer code_pattern text) 0
                {| processed_text := text; formats := []; offset := 0 |})
    as H.
  simpl in *. rewrite Nat.add_0_r in H. apply H.
  apply (@scan_chained (exec code_pattern) (fun _ => 1 + 1) text).
  apply (exec_delimited_ok true (chr "`") 1). lia.
Qed.

(** Every match a pass finds is made of group 1 and of the delimiter
    characters the pass adds to [offset]. *)
Lemma finditer_removed pattern removed s m :
  matcher_ok (exec pattern) removed ->
  In m (finditer pattern s) ->
  m_end m - m_start m = length (m_group1 m) + removed m.
Proof.
  intros Hok. pose proof (scan_chained _ _ s Hok) as Hch.
  revert Hch. unfold finditer.
  generalize 0 (length s) (scan (exec pattern) s).
  intros lo hi ms. revert lo. induction ms as [|x ms IH]; simpl.
  - tauto.
  - intros lo (Hlo & Hx & Hch) [->|Hin]; [lia|eauto].
Qed.

(** C9. When the inline formatter returns, [offset] is the number of
    characters removed from the line:
    [len(text) = len(processed_text) + offset]. Every match of a pass is
    its group 1 plus the characters that pass adds to [offset] (2 for
    inline code, 4 for strikethrough, 6 for bold-italic, 4 for bold, 2 for
    italic, the length of the match minus the label for a link); a match
    that [_position_in_ranges] rejects changes neither text nor offset. *)
Theorem offset_counts_removed_characters :
  (forall text,
      length text
      = length (processed_text (inline_passes text))
        + offset (inline_passes text))
  /\ (forall s m,
         (In m (finditer code_pattern s) ->
          m_end m - m_start m = length (m_group1 m) + 2)
         /\ (In m (finditer strikethrough_pattern s) ->
             m_end m - m_start m = length (m_group1 m) + 4)
         /\ (In m (finditer bold_italic_pattern s) ->
             m_end m - m_start m = length (m_group1 m) + 6)
         /\ (In m (finditer bold_pattern s) ->
             m_end m - m_start m = length (m_group1 m) + 4)
         /\ (In m (finditer italic_pattern s) ->
             m_end m - m_start m = length (m_group1 m) + 2)
         /\ (In m (finditer link_pattern s) ->
             link_removed m = m_end m - m_start m - length (m_group1 m)
             /\ length (m_group1 m) <= m_end m - m_start m))
  /\ (forall st m,
         offset (code_step st m) = offset st + 2)
  /\ (forall ranges kind removed st m,
         format_step ranges kind removed st m = st
         \/ (offset (format_step ranges kind removed st m)
             = offset st + removed m
             /\ processed_text (format_step ranges kind removed st m)
                = splice (processed_text st) (m_start m) (m_end m)
                         (m_group1 m))).
Proof.
  assert (ok : forall greedy c n,
             matcher_ok (exec (delimited greedy c (S n)))
                        (fun _ => S n + S n))
    by (intros; apply exec_delimited_ok; lia).
  split; [|split; [|split]].
  - intros text. unfold inline_passes. cbv zeta.
    set (ranges := map _ _).
    set (st1 := fold_left code_step _ _).
    set (st2 := format_pass ranges strikethrough_pattern _ _ st1).
    set (st3 := format_pass ranges bold_italic_pattern _ _ st2).
    set (st4 := format_pass ranges bold_pattern _ _ st3).
    set (st5 := format_pass ranges italic_pattern _ _ st4).
    pose proof (code_pass_length text) as H1.
    pose proof (@format_pass_length ranges strikethrough_pattern
                  strikethrough _ st1 (ok false (chr "~") 1)) as H2.
    pose proof (@format_pass_length ranges bold_italic_pattern
                  bold_italic _ st2 (ok false (chr "*") 2)) as H3.
    pose proof (@format_pass_length ranges bold_pattern bold _ st3
                  (ok false (chr "*") 1)) as H4.
    pose proof (@format_pass_length ranges italic_pattern italic _ st4
                  (ok false (chr "*") 0)) as H5.
    pose proof (@format_pass_length ranges link_pattern link _ st5
                  exec_link_ok) as H6.
    cbv zeta in H1, H2, H3, H4, H5, H6.
    change (length (processed_text st1) + offset st1 = length text) in H1.
    change (length (processed_text st2) + offset st2
            = length (processed_text st1) + offset st1) in H2.
    change (length (processed_text st3) + offset st3
            = length (processed_text st2) + offset st2) in H3.
    change (length (processed_text st4) + offset st4
            = length (processed_text st3) + offset st3) in H4.
    change (length (processed_text st5) + offset st5
            = length (processed_text st4) + offset st4) in H5.
    lia.
  - intros s m.
    split; [|split; [|split; [|split; [|split]]]]; intros Hin.
    + apply (finditer_removed _ _ _ _ (ok true (chr "`") 0) Hin).
    + apply (finditer_removed _ _ _ _ (ok false (chr "~") 1) Hin).
    + apply (finditer_removed _ _ _ _ (ok false (chr "*") 2) Hin).
    + apply (finditer_removed _ _ _ _ (ok false (chr "*") 1) Hin).
    + apply (finditer_removed _ _ _ _ (ok false (chr "*") 0) Hin).
    + pose proof (finditer_removed _ _ _ _ exec_link_ok Hin). lia.
  - reflexivity.
  - intros. unfold format_step.
    destruct (_position_in_ranges _ _ _ _); simpl; auto.
Qed.

End InlineFacts.

(* ===================================================================== *)
(** ** Facts about [strip] and friends *)
(* ===================================================================== *)

Module PyFacts.
Import Py Re ReFacts.

Lemma lstrip_with_snoc p c : forall l,
  p c = false -> lstrip_with p (l ++ [c]) = lstrip_with p l ++ [c].
Proof.
  induction l as [|x l IH]; simpl; intros Hc.
  - now rewrite Hc.
  - destruct (p x); auto.
Qed.

Lemma rstrip_with_cons p c s :
  p c = false -> rstrip_with p (c :: s) = c :: rstrip_with p s.
Proof.
  intros Hc. unfold rstrip_with. simpl.
  rewrite lstrip_with_snoc by assumption. now rewrite rev_unit.
Qed.

Lemma strip_with_cons p c s :
  p c = false -> strip_with p (c :: s) = c :: rstrip_with p s.
Proof.
  intros Hc. unfold strip_with. simpl. rewrite Hc.
  now apply rstrip_with_cons.
Qed.

Lemma lstrip_with_span p s : lstrip_with p s = snd (span p s).
Proof.
  induction s as [|c s IH]; simpl; [reflexivity|].
  destruct (p c); [|reflexivity].
  rewrite IH. now destruct (span p s).
Qed.

Lemma lstrip_with_split p s :
  exists t, s = t ++ lstrip_with p s /\ forallb p t = true.
Proof.
  destruct (span p s) as [a b] eqn:E.
  exists a. rewrite lstrip_with_span, E. simpl.
  split; [exact (span_app _ _ _ _ E) | exact (span_all _ _ _ _ E)].
Qed.

Lemma forallb_rev {A} (p : A -> bool) l :
  forallb p l = true -> forallb p (rev l) = true.
Proof.
  rewrite !forallb_forall. intros H x Hx. apply H. now apply in_rev.
Qed.

Lemma rstrip_with_split p s :
  exists t, s = rstrip_with p s ++ t /\ forallb p t = true.
Proof.
  destruct (lstrip_with_split p (rev s)) as (t & Ht & Hp).
  exists (rev t). split; [|now apply forallb_rev].
  unfold rstrip_with. rewrite <- rev_app_distr, <- Ht. now rewrite rev_involutive.
Qed.

(** A stripped line sits in the line between two runs of white space. *)
Lemma strip_split s :
  exists a b, s = a ++ strip s ++ b
              /\ span isspace s = (a, strip s ++ b)
              /\ forallb isspace b = true.
Proof.
  destruct (span isspace s) as [a l] eqn:E.
  destruct (rstrip_with_split isspace l) as (b & Hb & Hp).
  exists a, b. unfold strip, strip_with.
  rewrite lstrip_with_span, E. simpl. rewrite <- Hb.
  split; [exact (span_app _ _ _ _ E)|]. split; [reflexivity|assumption].
Qed.

Lemma startswith_cons_ne (c d : char) s pre :
  eqc c d = false -> startswith (c :: s) (d :: pre) = false.
Proof. intros H. simpl. now rewrite H. Qed.

Lemma split_truthy sep s : truthy (split sep s) = true.
Proof.
  induction s as [|c s IH]; simpl; [reflexivity|].
  destruct (eqc c sep); [reflexivity|].
  destruct (split sep s); reflexivity.
Qed.

End PyFacts.

(* ===================================================================== *)
(** ** The patterns of the block segmenter *)
(* ===================================================================== *)

Module PatternFacts.
Import Py Re Inline Tk MarkdownText ReFacts PyFacts.

Lemma marker_cases m :
  is_list_marker m = true ->
  m = chr "-" \/ m = chr "*" \/ m = chr "+".
Proof.
  unfold is_list_marker. intros H.
  apply orb_true_iff in H as [H|H]; [apply orb_true_iff in H as [H|H]|];
    apply N.eqb_eq in H; auto.
Qed.

Lemma rule_cases m :
  is_rule_char m = true ->
  m = chr "-" \/ m = chr "*" \/ m = chr "_".
Proof.
  unfold is_rule_char. intros H.
  apply orb_true_iff in H as [H|H]; [apply orb_true_iff in H as [H|H]|];
    apply N.eqb_eq in H; auto.
Qed.

Lemma space_not_marker c : isspace c = true -> is_list_marker c = false.
Proof.
  intros H. destruct (is_list_marker c) eqn:E; [|reflexivity].
  destruct (marker_cases c E) as [->|[->| ->]]; discriminate.
Qed.

Lemma space_not_rule c : isspace c = true -> is_rule_char c = false.
Proof.
  intros H. destruct (is_rule_char c) eqn:E; [|reflexivity].
  destruct (rule_cases c E) as [->|[->| ->]]; discriminate.
Qed.

Lemma rule_not_space c : is_rule_char c = true -> isspace c = false.
Proof.
  intros H. destruct (rule_cases c H) as [->|[->| ->]]; reflexivity.
Qed.

(** Both unordered patterns match as [match_unordered] says. *)
Lemma unordered_exec (opened : bool) line :
  exec (if opened then unordered_sub else unordered_test) line
  = match match_unordered line with
    | Some (indent, rest) =>
        Some (length line - length rest, if opened then indent else [])
    | None => None
    end.
Proof.
  unfold exec, match_unordered.
  destruct opened; unfold unordered_sub, unordered_test;
    cbn [app plus compile Nat.eqb consumed];
    (rewrite (star_span true isspace);
     [|intros c s' st' Hc; cbn [one]; now rewrite space_not_marker]);
    destruct (span isspace line) as [indent s1] eqn:E; cbn [fst snd];
    apply span_app in E; subst line;
    (destruct s1 as [|m s2]; [reflexivity|]); cbn [one];
    (destruct (is_list_marker m); [|reflexivity]);
    (destruct s2 as [|x s2]; [reflexivity|]); cbn [one span];
    (destruct (isspace x); [|reflexivity]);
    rewrite star_greedy_accept;
    destruct (span isspace s2) as [ws rest] eqn:E2; cbn [fst snd truthy];
    apply span_app in E2; subst s2;
    rewrite !advance_run_spec; simpl;
    rewrite ?length_app; simpl; rewrite ?length_app;
    f_equal; f_equal; try lia.
Qed.

(** The rule pattern matches as [match_hrule] says. *)
Lemma hrule_exec line : matches hrule_pattern line = match_hrule line.
Proof.
  unfold matches, exec, match_hrule, hrule_pattern.
  cbn [compile Nat.eqb consumed].
  rewrite (star_span true isspace).
  2:{ intros c s' st' Hc. cbn [one]. now rewrite space_not_rule. }
  destruct (span isspace line) as [indent s1]. cbn [fst snd].
  assert (Hk : forall c s' st',
             is_rule_char c = true ->
             star true isspace (compile [Eol] accept) (c :: s') st' = None).
  { intros c s' st' Hc. rewrite star_greedy_eol. cbn [span].
    now rewrite (rule_not_space c Hc). }
  assert (Hno : forall s, (let (_, s3) := span isspace s in
                           false && negb (truthy s3)) = false)
    by (intros s; now destruct (span isspace s)).
  destruct s1 as [|a s1]; [reflexivity|]. cbn [one span].
  destruct (is_rule_char a); [|now rewrite Hno].
  destruct s1 as [|b s1]; [reflexivity|]. cbn [one span].
  destruct (is_rule_char b); [|now rewrite Hno].
  destruct s1 as [|c s1]; [reflexivity|]. cbn [one span].
  destruct (is_rule_char c); [|now rewrite Hno].
  change (star true isspace (fun s st =>
            match s with
            | [] => accept s st
            | [c0] => if eqc c0 newline then accept s st else None
            | _ => None
            end))
    with (star true isspace (compile [Eol] accept)).
  rewrite (star_span true is_rule_char _ Hk).
  destruct (span is_rule_char s1) as [run s2]. cbn [fst snd].
  rewrite star_greedy_eol.
  destruct (span isspace s2) as [ws s3]. cbn [fst snd length].
  now destruct (truthy s3).
Qed.

(** What a match of [match_unordered] is made of. *)
Lemma match_unordered_split line indent rest :
  match_unordered line = Some (indent, rest) ->
  exists m ws,
    line = (indent ++ m :: ws) ++ rest /\ is_list_marker m = true
    /\ span isspace line = (indent, m :: ws ++ rest).
Proof.
  unfold match_unordered.
  destruct (span isspace line) as [a s1] eqn:E.
  destruct s1 as [|m s2]; [discriminate|].
  destruct (is_list_marker m) eqn:Em; [|discriminate].
  destruct (span isspace s2) as [ws r] eqn:E2.
  destruct ws as [|x ws]; [discriminate|].
  intros H; inversion H; subst a r; clear H.
  apply span_app in E2. subst s2.
  exists m, (x :: ws). split; [|auto].
  rewrite (span_app _ _ _ _ E). now rewrite <- app_assoc.
Qed.

Lemma skipn_length_app {A} (a b : list A) :
  skipn (length (a ++ b) - length b) (a ++ b) = b
  /\ firstn (length (a ++ b) - length b) (a ++ b) = a.
Proof.
  rewrite length_app.
  replace (length a + length b - length b) with (length a) by lia.
  split.
  - rewrite skipn_app, skipn_all, Nat.sub_diag. reflexivity.
  - rewrite firstn_app, firstn_all, Nat.sub_diag. simpl.
    now rewrite app_nil_r.
Qed.

(** The first substitution, by [match_unordered]. *)
Lemma sub_unordered_shape line :
  sub_unordered line
  = match match_unordered line with
    | Some (indent, rest) => indent ++ [bullet; chr " "] ++ rest
    | None => line
    end.
Proof.
  unfold sub_unordered, sub_at_start.
  rewrite (unordered_exec true).
  destruct (match_unordered line) as [[indent rest]|] eqn:E; [|reflexivity].
  destruct (match_unordered_split _ _ _ E) as (m & ws & Hl & _ & _).
  cbv beta. rewrite Hl.
  destruct (skipn_length_app (indent ++ m :: ws) rest) as [-> _].
  now rewrite <- !app_assoc.
Qed.

Section Ordered.
Context {UD : UnicodeDigits}.

Lemma space_not_decimal c : isspace c = true -> isdecimal c = false.
Proof.
  intros H. destruct (isdecimal c) eqn:E; [|reflexivity].
  apply isdecimal_not_space in E. congruence.
Qed.

Lemma decimal_not_dot c : isdecimal c = true -> eqc c (chr ".") = false.
Proof.
  intros H. destruct (eqc c (chr ".")) eqn:E; [|reflexivity].
  apply N.eqb_eq in E. subst c.
  rewrite isdecimal_ascii in H by reflexivity. discriminate.
Qed.

(** Both ordered patterns match as [match_ordered] says. *)
Lemma ordered_exec (opened : bool) line :
  exec (if opened then ordered_sub else ordered_test) line
  = match match_ordered line with
    | Some (g1, g0, rest) =>
        Some (length g0, if opened then g1 else [])
    | None => None
    end.
Proof.
  unfold exec, match_ordered.
  destruct opened; unfold ordered_sub, ordered_test;
    cbn [app plus compile Nat.eqb consumed];
    (rewrite (star_span true isspace);
     [|intros c s' st' Hc; cbn [one]; now rewrite space_not_decimal]);
    destruct (span isspace line) as [indent s1]; cbn [fst snd];
    (destruct s1 as [|d s1]; [reflexivity|]); cbn [one span];
    (destruct (isdecimal d); [|reflexivity]);
    (rewrite (star_span true isdecimal);
     [|intros c s' st' Hc; cbn [one]; now rewrite decimal_not_dot]);
    destruct (span isdecimal s1) as [ds s2]; cbn [fst snd];
    (destruct s2 as [|c s2]; [reflexivity|]); cbn [one];
    (destruct (eqc c (chr ".")); [|reflexivity]);
    (destruct s2 as [|x s2]; [reflexivity|]); cbn [one span];
    (destruct (isspace x); [|reflexivity]);
    rewrite star_greedy_accept;
    destruct (span isspace s2) as [ws rest]; cbn [fst snd truthy];
    rewrite !advance_run_spec; simpl;
    rewrite ?length_app; simpl; rewrite ?length_app; simpl;
    f_equal; f_equal; try lia.
Qed.

(** What a match of [match_ordered] is made of. *)
Lemma match_ordered_split line g1 g0 rest :
  match_ordered line = Some (g1, g0, rest) ->
  line = g0 ++ rest
  /\ exists d ds, span isspace line = (g1, d :: ds ++ rest)
                  /\ isdecimal d = true.
Proof.
  unfold match_ordered.
  destruct (span isspace line) as [a s1] eqn:E.
  destruct (span isdecimal s1) as [digits s2] eqn:E2.
  destruct digits as [|d ds]; [discriminate|].
  destruct s2 as [|c s3]; [discriminate|].
  destruct (eqc c (chr ".")); [|discriminate].
  destruct (span isspace s3) as [ws r] eqn:E3.
  destruct ws as [|x ws]; [discriminate|].
  intros H; inversion H; subst a g0 r; clear H.
  pose proof (span_all _ _ _ _ E2) as Hd. simpl in Hd.
  apply andb_true_iff in Hd as [Hd _].
  apply span_app in E2, E3. subst s1 s3.
  split.
  - rewrite (span_app _ _ _ _ E). simpl. rewrite <- !app_assoc. simpl.
    now rewrite <- !app_assoc.
  - exists d, (ds ++ c :: x :: ws). split; [|assumption].
    simpl. now rewrite <- !app_assoc.
Qed.

(** The second substitution, by [match_ordered]. *)
Lemma sub_ordered_shape line :
  sub_ordered line
  = match match_ordered line with
    | Some (g1, g0, rest) => g1 ++ g0 ++ rest
    | None => line
    end.
Proof.
  unfold sub_ordered, sub_at_start.
  rewrite (ordered_exec true).
  destruct (match_ordered line) as [[[g1 g0] rest]|] eqn:E; [|reflexivity].
  destruct (match_ordered_split _ _ _ _ E) as (Hl & _).
  rewrite Hl.
  rewrite firstn_app, firstn_all, Nat.sub_diag.
  rewrite skipn_app, skipn_all, Nat.sub_diag. simpl.
  now rewrite app_nil_r, <- app_assoc.
Qed.

(** The test of the list branch, by the two of them. *)
Lemma is_list_item_shape line :
  is_list_item line
  = match match_unordered line, match_ordered line with
    | None, None => false
    | _, _ => true
    end.
Proof.
  unfold is_list_item, matches.
  rewrite (unordered_exec false), (ordered_exec false).
  destruct (match_unordered line) as [[? ?]|];
    destruct (match_ordered line) as [[[? ?] ?]|]; reflexivity.
Qed.

End Ordered.

End PatternFacts.

(* ===================================================================== *)
(** ** Facts about the rendering loop *)
(* ===================================================================== *)

Module RenderFacts.
Import Py Re Inline Tk MarkdownText ReFacts PyFacts.

Lemma fence_scan_suffix rest : forall acc,
  exists k, snd (fence_scan rest acc) = skipn k rest.
Proof.
  induction rest as [|l rest IH]; simpl; intros acc.
  - now exists 0.
  - destruct (is_fence l).
    + now exists 0.
    + destruct (IH (acc ++ [l])) as [k Hk]. now exists (S k).
Qed.

Lemma quote_scan_suffix rest : forall acc,
  exists k, snd (quote_scan rest acc) = skipn k rest.
Proof.
  induction rest as [|l rest IH]; simpl; intros acc.
  - now exists 0.
  - destruct (is_quote l).
    + destruct (IH (acc ++ [strip (lstrip_chars (lit ">") (strip l))]))
        as [k Hk]. now exists (S k).
    + now exists 0.
Qed.

Lemma insert_at_end pos t w :
  at_end pos w -> content (insert (At pos) t w) = content w ++ t.
Proof.
  unfold at_end, insert, resolve. intros ->. simpl.
  rewrite Nat2Z.id, Nat.min_id, firstn_all, skipn_all.
  now rewrite app_nil_r.
Qed.

Lemma emit_block_end t text pos w :
  at_end pos w ->
  at_end (fst (emit_block t text pos w)) (snd (emit_block t text pos w))
  /\ content (snd (emit_block t text pos w)) = content w ++ text.
Proof.
  intros H. unfold emit_block. cbn [fst snd]. unfold tag_add.
  cbn [content]. rewrite (insert_at_end _ _ _ H).
  split; [|reflexivity]. unfold at_end in *. cbn [content]. subst pos.
  rewrite length_app. lia.
Qed.

Lemma apply_format_tags_content pos fs : forall w,
  content (_apply_format_tags pos fs w) = content w.
Proof.
  unfold _apply_format_tags.
  induction fs as [|f fs IH]; intros w; simpl; [reflexivity|].
  now rewrite IH.
Qed.

Lemma emit_code_end body pos w :
  at_end pos w ->
  at_end (fst (emit_code body pos w)) (snd (emit_code body pos w)).
Proof.
  intros H. unfold emit_code. destruct (truthy body); [|assumption].
  now apply emit_block_end.
Qed.

Lemma emit_paragraph_end line pos w :
  at_end pos w ->
  at_end (fst (emit_paragraph line pos w))
         (snd (emit_paragraph line pos w)).
Proof.
  intros H. unfold emit_paragraph.
  destruct (_process_inline_formatting line) as [text fs].
  cbn [fst snd]. unfold at_end.
  rewrite apply_format_tags_content, (insert_at_end _ _ _ H).
  unfold at_end in H. subst pos. rewrite !length_app. simpl. lia.
Qed.

Lemma quote_scan_cons l rest acc :
  quote_scan (l :: rest) acc
  = if is_quote l then
      quote_scan rest (acc ++ [strip (lstrip_chars (lit ">") (strip l))])
    else (acc, l :: rest).
Proof. reflexivity. Qed.

Section Loop.
Context {UD : UnicodeDigits}.

(** Every turn of the loop moves on: the lines left are a suffix of the
    lines after the current one ([i] grows by at least one). *)
Lemma loop_body_suffix line rest pos w :
  exists k, fst (fst (loop_body line rest pos w)) = skipn k rest.
Proof.
  unfold loop_body.
  destruct (is_fence line).
  - destruct (fence_scan rest []) as [code_lines after] eqn:E.
    destruct (fence_scan_suffix rest []) as [k Hk]. rewrite E in Hk.
    simpl in Hk. subst after.
    destruct (emit_code code_lines pos w) as [p' w']. simpl.
    exists (S k). clear. revert rest.
    induction k as [|k IH]; intros [|x rest]; simpl; auto.
  - destruct (heading_of line) as [[n t]|].
    + destruct (emit_block _ _ _ _). now exists 0.
    + destruct (is_quote line) eqn:Eq.
      * rewrite quote_scan_cons, Eq.
        destruct (quote_scan_suffix rest
                    ([] ++ [strip (lstrip_chars (lit ">") (strip line))]))
          as [k Hk].
        destruct (quote_scan rest _) as [ql after].
        simpl in Hk. subst after.
        destruct (if truthy ql then _ else _). now exists k.
      * destruct (is_list_item line).
        { destruct (emit_block _ _ _ _). now exists 0. }
        destruct (matches hrule_pattern line).
        { destruct (emit_block _ _ _ _). now exists 0. }
        destruct (emit_paragraph line pos w). now exists 0.
Qed.

Lemma loop_body_length line rest pos w :
  length (fst (fst (loop_body line rest pos w))) <= length rest.
Proof.
  destruct (loop_body_suffix line rest pos w) as [k ->].
  rewrite length_skipn. lia.
Qed.

(** The loop ends within one unit of fuel for each line. *)
Lemma render_loop_total : forall fuel lines pos w,
  length lines <= fuel -> exists r, render_loop fuel lines pos w = Some r.
Proof.
  induction fuel as [|fuel IH]; intros [|line rest] pos w Hlen;
    simpl in *; eauto; [lia|].
  pose proof (loop_body_length line rest pos w) as Hl.
  destruct (loop_body line rest pos w) as [[lines' pos'] w'].
  simpl in Hl. apply IH. lia.
Qed.

(** More fuel does not change a result. *)
Lemma render_loop_mono : forall fuel lines pos w r,
  render_loop fuel lines pos w = Some r ->
  forall fuel', fuel <= fuel' -> render_loop fuel' lines pos w = Some r.
Proof.
  induction fuel as [|fuel IH]; intros [|line rest] pos w r H fuel' Hle;
    simpl in *; try discriminate.
  - now destruct fuel'.
  - now destruct fuel'.
  - destruct fuel' as [|fuel']; [lia|]. simpl.
    destruct (loop_body line rest pos w) as [[lines' pos'] w'].
    eapply IH; eauto. lia.
Qed.

Lemma render_loop_enough fuel lines pos w :
  length lines <= fuel ->
  render_loop fuel lines pos w = render_lines lines pos w.
Proof.
  intros Hle. unfold render_lines.
  destruct (render_loop_total (length lines) lines pos w (le_n _))
    as [r Hr].
  rewrite Hr. eapply render_loop_mono; eauto.
Qed.

Lemma loop_body_end line rest pos w :
  at_end pos w ->
  at_end (snd (fst (loop_body line rest pos w)))
         (snd (loop_body line rest pos w)).
Proof.
  intros H. unfold loop_body.
  destruct (is_fence line).
  { destruct (fence_scan rest []) as [code_lines after].
    pose proof (emit_code_end code_lines pos w H).
    now destruct (emit_code code_lines pos w). }
  destruct (heading_of line) as [[n t]|].
  { pose proof (emit_block_end (h n) (t ++ [newline]) pos w H) as [? _].
    now destruct (emit_block _ _ _ _). }
  destruct (is_quote line).
  { destruct (quote_scan (line :: rest) []) as [ql after].
    destruct (truthy ql); [|assumption].
    pose proof (emit_block_end blockquote
                  (join [newline] ql ++ [newline]) pos w H) as [? _].
    now destruct (emit_block _ _ _ _). }
  destruct (is_list_item line).
  { pose proof (emit_block_end list_item
                  (sub_ordered (sub_unordered line) ++ [newline]) pos w H)
      as [? _].
    now destruct (emit_block _ _ _ _). }
  destruct (matches hrule_pattern line).
  { pose proof (emit_block_end normal
                  (repeat rule_glyph 50 ++ [newline]) pos w H) as [? _].
    now destruct (emit_block _ _ _ _). }
  pose proof (emit_paragraph_end line pos w H).
  now destruct (emit_paragraph line pos w).
Qed.

Lemma render_loop_end : forall fuel lines pos w pos' w',
  at_end pos w ->
  render_loop fuel lines pos w = Some (pos', w') -> at_end pos' w'.
Proof.
  induction fuel as [|fuel IH]; intros [|line rest] pos w pos' w' H E;
    simpl in E; try discriminate; try (inversion E; subst; assumption).
  pose proof (loop_body_end line rest pos w H) as H'.
  destruct (loop_body line rest pos w) as [[lines1 pos1] w1].
  simpl in H'. eauto.
Qed.

Lemma render_lines_nil pos w : render_lines [] pos w = Some (pos, w).
Proof. reflexivity. Qed.

(** The loop, one turn at a time. *)
Lemma render_lines_cons line rest pos w :
  render_lines (line :: rest) pos w
  = let '(lines', pos', w') := loop_body line rest pos w in
    render_lines lines' pos' w'.
Proof.
  unfold render_lines at 1. simpl.
  pose proof (loop_body_length line rest pos w) as Hl.
  destruct (loop_body line rest pos w) as [[lines' pos'] w'].
  simpl in Hl. now apply render_loop_enough.
Qed.

Lemma render_lines_total lines pos w :
  exists r, render_lines lines pos w = Some r.
Proof. apply render_loop_total. apply le_n. Qed.

End Loop.

End RenderFacts.

(* ===================================================================== *)
(** ** Lines on which no pattern matches *)
(* ===================================================================== *)

Module NoMatch.
Import Py Re Inline ReFacts.

Lemma count_app c a b : count c (a ++ b) = count c a + count c b.
Proof. apply count_occ_app. Qed.

Lemma count_repeat c n : count c (repeat c n) = n.
Proof.
  induction n as [|n IH]; simpl; [reflexivity|].
  unfold count in *. simpl. destruct (N.eq_dec c c); [now rewrite IH|easy].
Qed.

Lemma count_skipn c s : forall k, count c (skipn k s) <= count c s.
Proof.
  induction s as [|x s IH]; intros [|k]; simpl; auto.
  unfold count in *. simpl. specialize (IH k).
  destruct (N.eq_dec x c); lia.
Qed.

Lemma count_zero_forallb (p : char -> bool) c s :
  forallb p s = true -> p c = false -> count c s = 0.
Proof.
  intros Hs Hc. induction s as [|x s IH]; simpl; [reflexivity|].
  simpl in Hs. apply andb_true_iff in Hs as [Hx Hs].
  unfold count in *. simpl.
  destruct (N.eq_dec x c); [congruence|auto].
Qed.

(** A match of a delimited pattern holds the delimiter [2n] times. *)
Lemma match_delimited_count c n s len g :
  match_delimited c n s = Some (len, g) -> n + n <= count c s.
Proof.
  unfold match_delimited.
  destruct (strip_prefix (repeat c n) s) as [s1|] eqn:E1; [|discriminate].
  destruct (span _ s1) as [content s2] eqn:E2.
  destruct content as [|x content]; [discriminate|].
  destruct (strip_prefix (repeat c n) s2) as [s3|] eqn:E3; [|discriminate].
  intros _. apply strip_prefix_app in E1, E3. apply span_app in E2.
  subst s s1 s2. rewrite !count_app, !count_repeat. lia.
Qed.

(** A match of the link pattern holds the four brackets. *)
Lemma match_link_count s len g :
  match_link s = Some (len, g) ->
  0 < count (chr "[") s /\ 0 < count (chr "]") s
  /\ 0 < count (chr "(") s /\ 0 < count (chr ")") s.
Proof.
  unfold match_link.
  destruct s as [|c s1]; [discriminate|].
  destruct (eqc c (chr "[")) eqn:Ec; [|discriminate].
  destruct (span _ s1) as [label s2] eqn:E2.
  destruct label as [|x label]; [discriminate|].
  destruct (strip_prefix (lit "](") s2) as [s3|] eqn:E3; [|discriminate].
  destruct (span _ s3) as [url s4] eqn:E4.
  destruct url as [|y url]; [discriminate|].
  destruct s4 as [|z s5]; [discriminate|].
  intros _. apply N.eqb_eq in Ec. subst c.
  pose proof (span_rest_head _ _ _ _ _ E4) as Hz.
  apply negb_false_iff, N.eqb_eq in Hz. subst z.
  apply strip_prefix_app in E3. apply span_app in E2, E4.
  subst s1 s2 s3.
  change (chr "[" :: ?l) with ([chr "["] ++ l).
  change (chr ")" :: ?l) with ([chr ")"] ++ l).
  rewrite !count_app. cbn. lia.
Qed.

Lemma finditer_from_nil matcher s :
  (forall k, matcher (skipn k s) = None) ->
  forall pos skip, finditer_from matcher s pos skip = [].
Proof.
  induction s as [|c s IH]; simpl; intros Hno pos skip; [reflexivity|].
  assert (Hs : forall k, matcher (skipn k s) = None)
    by (intros k; apply (Hno (S k))).
  destruct skip; [|now apply IH].
  pose proof (Hno 0) as H0. simpl in H0. rewrite H0. now apply IH.
Qed.

Lemma scan_delimited_nil c n s :
  count c s < n + n -> scan (match_delimited c n) s = [].
Proof.
  intros Hc. apply finditer_from_nil. intros k.
  destruct (match_delimited c n (skipn k s)) as [[len g]|] eqn:E;
    [|reflexivity].
  apply match_delimited_count in E.
  pose proof (count_skipn c s k). lia.
Qed.

Lemma scan_link_nil s :
  count (chr "[") s = 0 \/ count (chr "]") s = 0
  \/ count (chr "(") s = 0 \/ count (chr ")") s = 0 ->
  scan match_link s = [].
Proof.
  intros Hc. apply finditer_from_nil. intros k.
  destruct (match_link (skipn k s)) as [[len g]|] eqn:E; [|reflexivity].
  apply match_link_count in E.
  pose proof (count_skipn (chr "[") s k).
  pose proof (count_skipn (chr "]") s k).
  pose proof (count_skipn (chr "(") s k).
  pose proof (count_skipn (chr ")") s k). lia.
Qed.

(** Without a match in any pass the line comes back as it is. *)
Lemma unmatched_line_is_literal line :
  count (chr "`") line < 2 ->
  count (chr "~") line < 4 ->
  count (chr "*") line < 2 ->
  (count (chr "[") line = 0 \/ count (chr "]") line = 0
   \/ count (chr "(") line = 0 \/ count (chr ")") line = 0) ->
  _process_inline_formatting line = (line, []).
Proof.
  intros Hq Ht Hs Hl.
  assert (Hd : forall greedy c n,
             count c line < S n + S n ->
             finditer (delimited greedy c (S n)) line = []).
  { intros greedy c n Hc. rewrite finditer_delimited by lia.
    now apply scan_delimited_nil. }
  unfold _process_inline_formatting, inline_passes, format_pass.
  change code_pattern with (delimited true (chr "`") 1).
  change strikethrough_pattern with (delimited false (chr "~") 2).
  change bold_italic_pattern with (delimited false (chr "*") 3).
  change bold_pattern with (delimited false (chr "*") 2).
  change italic_pattern with (delimited false (chr "*") 1).
  rewrite (Hd true (chr "`") 0) by exact Hq.
  cbn [rev fold_left processed_text map].
  rewrite (Hd false (chr "~") 1) by exact Ht.
  cbn [rev fold_left processed_text].
  rewrite (Hd false (chr "*") 2)
    by (apply Nat.lt_le_trans with (1 := Hs); repeat constructor).
  cbn [rev fold_left processed_text].
  rewrite (Hd false (chr "*") 1)
    by (apply Nat.lt_le_trans with (1 := Hs); repeat constructor).
  cbn [rev fold_left processed_text].
  rewrite (Hd false (chr "*") 0) by exact Hs.
  cbn [rev fold_left processed_text].
  rewrite finditer_link, (scan_link_nil line) by assumption.
  reflexivity.
Qed.

End NoMatch.

(* ===================================================================== *)
(** ** Block segmentation: headings and plain text mode *)
(* ===================================================================== *)

Module BlockFacts.
Import Py Re Inline Tk MarkdownText ReFacts PyFacts PatternFacts.
Import RenderFacts NoMatch.

Lemma hash_count_pos line :
  1 <= hash_count line -> exists s, line = chr "#" :: s.
Proof.
  destruct line as [|c s]; cbn [hash_count]; intros H; [exfalso; lia|].
  destruct (eqc c (chr "#")) eqn:E; [|exfalso; lia].
  apply N.eqb_eq in E. subst. eauto.
Qed.

Lemma hash_count_strip line :
  1 <= hash_count line ->
  exists t, strip line = chr "#" :: t.
Proof.
  intros H. destruct (hash_count_pos line H) as [s ->].
  eexists. apply strip_with_cons. reflexivity.
Qed.

Section Blocks.
Context {UD : UnicodeDigits}.

Lemma isdecimal_hash : isdecimal (chr "#") = false.
Proof. now rewrite isdecimal_ascii. Qed.

(** A line whose stripped text starts with ['#'] can only be a heading
    or a paragraph. *)
Lemma hash_line_branches line t :
  strip line = chr "#" :: t ->
  is_fence line = false /\ is_quote line = false
  /\ is_list_item line = false /\ matches hrule_pattern line = false
  /\ startswith (strip line) (lit "#") = true.
Proof.
  intros H. destruct (strip_split line) as (a & b & _ & Hspan & _).
  rewrite H in Hspan.
  repeat split.
  - unfold is_fence. now rewrite H.
  - unfold is_quote. now rewrite H.
  - rewrite is_list_item_shape. unfold match_unordered, match_ordered.
    rewrite Hspan. cbn [span app]. rewrite isdecimal_hash. reflexivity.
  - rewrite hrule_exec. unfold match_hrule. rewrite Hspan. cbn.
    now destruct (span isspace _).
  - now rewrite H.
Qed.

(** With the heading branch out of the way such a line is a paragraph. *)
Lemma hash_line_paragraph line t rest pos w :
  strip line = chr "#" :: t ->
  heading_of line = None ->
  loop_body line rest pos w
  = let (pos', w') := emit_paragraph line pos w in (rest, pos', w').
Proof.
  intros Hs Hh.
  destruct (hash_line_branches line t Hs) as (Hf & Hq & Hl & Hr & _).
  unfold loop_body. now rewrite Hf, Hh, Hq, Hl, Hr.
Qed.

(** More than four ['#'] at the head of the line: no heading, the
    paragraph branch. *)
Lemma deep_hash_line_paragraph line rest pos w :
  4 < hash_count line ->
  loop_body line rest pos w
  = let (pos', w') := emit_paragraph line pos w in (rest, pos', w').
Proof.
  intros Hn.
  destruct (hash_count_strip line) as [t Hs]; [lia|].
  apply hash_line_paragraph with (t := t); [assumption|].
  unfold heading_of.
  replace (hash_count line <=? 4) with false
    by (symmetry; apply Nat.leb_gt; lia).
  now destruct (startswith _ _).
Qed.

(** C4, as amended. A line that begins with one to four ['#'] and has a
    title left once every leading and trailing ['#'] and then the
    surrounding white space are stripped becomes a single-line heading at
    the level of its run of ['#'], and that title is what is displayed.
    A line that begins with more than four ['#'] is no heading: it goes
    through the paragraph branch, the inline formatter included. *)
Theorem heading_level_and_title :
  (forall line rest pos w,
      1 <= hash_count line <= 4 ->
      title_text line <> [] ->
      loop_body line rest pos w
      = let (pos', w') :=
          emit_block (h (hash_count line)) (title_text line ++ [newline])
                     pos w in
        (rest, pos', w'))
  /\ (forall line rest pos w,
         4 < hash_count line ->
         loop_body line rest pos w
         = let (pos', w') := emit_paragraph line pos w in
           (rest, pos', w')).
Proof.
  split; intros line rest pos w Hn.
  - intros Ht.
    destruct (hash_count_strip line) as [t Hs]; [lia|].
    destruct (hash_line_branches line t Hs) as (Hf & _ & _ & _ & Hh).
    unfold loop_body, heading_of. rewrite Hf, Hh.
    replace (hash_count line <=? 4) with true
      by (symmetry; apply Nat.leb_le; lia).
    destruct (title_text line) as [|c tt]; [congruence|].
    reflexivity.
  - now apply deep_hash_line_paragraph.
Qed.

Lemma lstrip_with_all p s : forallb p s = true -> lstrip_with p s = [].
Proof.
  induction s as [|c s IH]; [reflexivity|]. cbn [forallb lstrip_with].
  intros H. apply andb_true_iff in H as [-> H]. now apply IH.
Qed.

(** White space is kept by [strip('#')]. *)
Lemma lstrip_hash_spaces b :
  forallb isspace b = true ->
  lstrip_with (fun c => existsb (eqc c) (lit "#")) b = b.
Proof.
  destruct b as [|c b]; [reflexivity|]. cbn [forallb lstrip_with].
  intros H. apply andb_true_iff in H as [Hc _].
  cbn [existsb lit list_ascii_of_string map]. fold (chr "#").
  destruct (eqc c (chr "#")) eqn:E; [|reflexivity].
  apply N.eqb_eq in E. subst c. discriminate.
Qed.

(** A line that begins with its ['#'] and holds nothing else but white
    space after them has an empty title. *)
Lemma hash_run_title line k :
  1 <= hash_count line -> strip line = repeat (chr "#") k ->
  title_text line = [].
Proof.
  intros Hc Hs. destruct (hash_count_pos line Hc) as [s Hline].
  destruct (strip_split line) as (a & b & Hl & Hspan & Hb).
  rewrite Hs in Hl, Hspan. rewrite Hline in Hspan at 1.
  cbn [span] in Hspan.
  change (isspace (chr "#")) with false in Hspan. cbv iota in Hspan.
  assert (Ha : a = []) by (inversion Hspan; reflexivity).
  subst a. cbn [app] in Hl. clear Hspan Hline.
  unfold title_text, strip_chars, strip_with. rewrite Hl.
  assert (Hrun : lstrip_with (fun c => existsb (eqc c) (lit "#"))
                             (repeat (chr "#") k ++ b) = b).
  { clear Hs Hl. induction k as [|k IH]; cbn [repeat app lstrip_with].
    - now apply lstrip_hash_spaces.
    - exact IH. }
  rewrite Hrun. unfold rstrip_with.
  rewrite lstrip_hash_spaces by now apply forallb_rev.
  rewrite rev_involutive. unfold strip, strip_with.
  rewrite (lstrip_with_all isspace b Hb). reflexivity.
Qed.

(** A line that begins with one to four ['#'] and holds nothing after
    them but white space is no heading: it is displayed as a paragraph,
    exactly as it is, with no tag at all. *)
Lemma hash_run_line_is_literal_paragraph line rest pos w k :
  1 <= k <= 4 ->
  1 <= hash_count line ->
  strip line = repeat (chr "#") k ->
  heading_of line = None
  /\ loop_body line rest pos w
     = (rest, (pos + Z.of_nat (length (line ++ [newline])))%Z,
        insert (At pos) (line ++ [newline]) w).
Proof.
  intros Hk Hc Hs. pose proof (hash_run_title line k Hc Hs) as Ht.
  assert (Hh : heading_of line = None).
  { unfold heading_of. rewrite Ht.
    destruct (startswith _ _); [|reflexivity].
    now destruct (_ <=? _). }
  split; [assumption|].
  destruct k as [|k]; [lia|].
  rewrite (hash_line_paragraph line (repeat (chr "#") k) rest pos w Hs Hh).
  unfold emit_paragraph.
  rewrite unmatched_line_is_literal; [reflexivity| | | |left];
    destruct (strip_split line) as (a & b & Hl & Hspan & Hb);
    apply span_all in Hspan; rewrite Hl, !count_app, Hs;
    repeat (rewrite (count_zero_forallb
                       (fun c => isspace c || eqc c (chr "#")));
            [|rewrite forallb_forall in *; intros x Hx;
              try (apply repeat_spec in Hx; subst x; reflexivity);
              try (rewrite Hspan by assumption; reflexivity);
              try (rewrite Hb by assumption; reflexivity)
             |reflexivity]); simpl; lia.
Qed.

End Blocks.

(** C7. In plain text mode the widget shows the raw content, character
    for character, under the single tag [normal], whatever markdown the
    content holds; the raw content itself is untouched. *)
Theorem plain_text_is_verbatim (self : widget) :
  content (display (render_as_plain_text self)) = raw_content self
  /\ tag_ranges (display (render_as_plain_text self))
     = [(normal, At 0, END)]
  /\ raw_content (render_as_plain_text self) = raw_content self
  /\ forall UD : UnicodeDigits,
      option_map (fun s => content (display s))
                 (switch_render_mode false self)
      = Some (raw_content self).
Proof.
  unfold render_as_plain_text, switch_render_mode. simpl.
  rewrite app_nil_r. repeat split.
Qed.

End BlockFacts.

(* ===================================================================== *)
(** ** Block segmentation: list items *)
(* ===================================================================== *)

Module ListFacts.
Import Py Re Inline Tk MarkdownText ReFacts PyFacts PatternFacts.
Import RenderFacts.

(** The first character after the leading white space is the first
    character of the stripped line. *)
Lemma strip_head line a c s :
  span isspace line = (a, c :: s) -> exists t, strip line = c :: t.
Proof.
  intros E. pose proof (span_rest_head _ _ _ _ _ E) as Hc.
  destruct (strip_split line) as (a' & b & _ & Hspan & Hb).
  rewrite E in Hspan. inversion Hspan as [[Ha Hs]].
  destruct (strip line) as [|c' t]; simpl in Hs.
  - subst b. simpl in Hb. now rewrite Hc in Hb.
  - inversion Hs. eauto.
Qed.

(** A line whose stripped text starts with none of the backquote, ['#']
    and ['>'] reaches the list test. *)
Lemma first_char_branches line c t :
  strip line = c :: t ->
  eqc c (chr "`") = false -> eqc c (chr "#") = false ->
  eqc c (chr ">") = false ->
  is_fence line = false /\ heading_of line = None
  /\ is_quote line = false.
Proof.
  intros Hs H1 H2 H3. unfold is_fence, heading_of, is_quote. rewrite Hs.
  cbn [startswith lit list_ascii_of_string map].
  fold (chr "`") (chr "#") (chr ">"). now rewrite H1, H2, H3.
Qed.

Section Lists.
Context {UD : UnicodeDigits}.

Lemma decimal_not_punctuation d :
  isdecimal d = true ->
  eqc d (chr "`") = false /\ eqc d (chr "#") = false
  /\ eqc d (chr ">") = false /\ is_list_marker d = false.
Proof.
  intros Hd. unfold is_list_marker.
  repeat split;
    repeat match goal with
    | |- context [eqc d ?c] =>
        let E := fresh "E" in
        destruct (eqc d c) eqn:E;
        [apply N.eqb_eq in E; subst d;
         rewrite isdecimal_ascii in Hd by reflexivity; discriminate|]
    end; reflexivity.
Qed.

(** An unordered item: the marker and the white space after it become
    the bullet and one space, the indentation stays. *)
Lemma unordered_item_block line indent rest' rest pos w :
  match_unordered line = Some (indent, rest') ->
  loop_body line rest pos w
  = let (pos', w') :=
      emit_block list_item
                 ((indent ++ [bullet; chr " "] ++ rest') ++ [newline])
                 pos w in
    (rest, pos', w').
Proof.
  intros H. pose proof H as H'. unfold match_unordered in H'.
  destruct (span isspace line) as [a s1] eqn:E.
  destruct s1 as [|m s2]; [discriminate|].
  destruct (is_list_marker m) eqn:Em; [|discriminate].
  destruct (span isspace s2) as [ws r]. destruct ws; [discriminate|].
  inversion H'; subst a r; clear H'.
  destruct (strip_head _ _ _ _ E) as [t Hs].
  assert (Hm : eqc m (chr "`") = false /\ eqc m (chr "#") = false
               /\ eqc m (chr ">") = false)
    by (destruct (marker_cases m Em) as [->|[->| ->]]; repeat split).
  destruct Hm as (M1 & M2 & M3).
  destruct (first_char_branches line m t Hs M1 M2 M3) as (Hf & Hh & Hq).
  unfold loop_body.
  rewrite Hf, Hh, Hq, is_list_item_shape, sub_unordered_shape, H.
  replace (sub_ordered (indent ++ [bullet; chr " "] ++ rest'))
    with (indent ++ [bullet; chr " "] ++ rest'); [reflexivity|].
  rewrite sub_ordered_shape. unfold match_ordered.
  rewrite (span_run isspace indent ([bullet; chr " "] ++ rest'));
    [|exact (span_all _ _ _ _ E)|reflexivity].
  cbn [app span]. now rewrite isdecimal_bullet.
Qed.

(** An ordered item: the second substitution puts group 1 in front of
    the whole match, so the line is displayed after its own
    indentation. *)
Lemma ordered_item_block line g1 g0 rest' rest pos w :
  match_ordered line = Some (g1, g0, rest') ->
  forallb isspace g1 = true
  /\ loop_body line rest pos w
     = let (pos', w') :=
         emit_block list_item ((g1 ++ line) ++ [newline]) pos w in
       (rest, pos', w').
Proof.
  intros H. pose proof H as H'. unfold match_ordered in H'.
  destruct (span isspace line) as [a s1] eqn:E.
  destruct (span isdecimal s1) as [digits s2] eqn:E2.
  destruct digits as [|d ds]; [discriminate|].
  destruct s2 as [|c s3]; [discriminate|].
  destruct (eqc c (chr ".")); [|discriminate].
  destruct (span isspace s3) as [ws r] eqn:E3.
  destruct ws as [|x ws]; [discriminate|].
  inversion H'; subst g1 g0 rest'; clear H'.
  pose proof (span_all _ _ _ _ E) as Ha. split; [assumption|].
  pose proof (span_all _ _ _ _ E2) as Hd. simpl in Hd.
  apply andb_true_iff in Hd as [Hd _].
  destruct (decimal_not_punctuation d Hd) as (D1 & D2 & D3 & D4).
  pose proof (span_app _ _ _ _ E) as L1.
  pose proof (span_app _ _ _ _ E2) as L2.
  pose proof (span_app _ _ _ _ E3) as L3.
  rewrite L2 in E. simpl in E.
  destruct (strip_head _ _ _ _ E) as [t Hs].
  destruct (first_char_branches line d t Hs D1 D2 D3) as (Hf & Hh & Hq).
  assert (Hu : match_unordered line = None).
  { unfold match_unordered. rewrite E. now rewrite D4. }
  unfold loop_body.
  rewrite Hf, Hh, Hq, is_list_item_shape, sub_unordered_shape, Hu.
  rewrite sub_ordered_shape, H.
  match goal with
  | |- context [emit_block list_item (?t ++ [newline])] =>
      replace t with (a ++ line); [reflexivity|]
  end.
  rewrite L1, L2, L3. simpl. rewrite <- !app_assoc. simpl.
  now rewrite <- !app_assoc.
Qed.

End Lists.

End ListFacts.

(* ===================================================================== *)
(** ** Code fences and termination *)
(* ===================================================================== *)

Module FenceFacts.
Import Py Re Inline Tk MarkdownText ReFacts PyFacts RenderFacts NoMatch.
Import BlockFacts.

Lemma is_fence_not_quote l : is_fence l = true -> is_quote l = false.
Proof.
  unfold is_fence, is_quote. destruct (strip l) as [|c s]; [discriminate|].
  cbn [startswith lit list_ascii_of_string map].
  intros H. apply andb_true_iff in H as [H _].
  apply N.eqb_eq in H. now subst c.
Qed.

Lemma no_fence_skipn ls : forall k,
  no_fence ls = true -> no_fence (skipn k ls) = true.
Proof.
  induction ls as [|l ls IH]; intros [|k] H; simpl in *; auto.
  apply andb_true_iff in H as [_ H]. auto.
Qed.

Lemma fence_scan_body body tail : forall acc,
  no_fence body = true -> fence_or_end tail ->
  fence_scan (body ++ tail) acc = (acc ++ body, tail).
Proof.
  induction body as [|l body IH]; simpl; intros acc Hb Ht.
  - rewrite app_nil_r. destruct tail as [|x tail]; simpl in *; auto.
    now rewrite Ht.
  - apply andb_true_iff in Hb as [Hl Hb].
    apply negb_true_iff in Hl. rewrite Hl, IH by assumption.
    now rewrite <- app_assoc.
Qed.

Lemma quote_scan_app ls tail : forall acc,
  fence_or_end tail ->
  quote_scan (ls ++ tail) acc
  = let (q, after) := quote_scan ls acc in (q, after ++ tail).
Proof.
  induction ls as [|l ls IH]; intros acc Ht.
  - destruct tail as [|x tail]; simpl in *; auto.
    now rewrite (is_fence_not_quote x Ht).
  - rewrite <- app_comm_cons, !quote_scan_cons.
    destruct (is_quote l); [now apply IH|reflexivity].
Qed.

Section Fences.
Context {UD : UnicodeDigits}.

(** The code-block branch, when the lines after the opening fence are
    [body] up to the closing fence or the end. *)
Lemma fence_step opener body tail pos w :
  is_fence opener = true -> no_fence body = true -> fence_or_end tail ->
  loop_body opener (body ++ tail) pos w
  = let (pos', w') := emit_code body pos w in (tl tail, pos', w').
Proof.
  intros Ho Hb Ht. unfold loop_body.
  rewrite Ho, fence_scan_body by assumption. reflexivity.
Qed.

(** A turn on a line that is no fence does not look past the next
    fence. *)
Lemma loop_body_app line pre tail pos w :
  is_fence line = false -> fence_or_end tail ->
  loop_body line (pre ++ tail) pos w
  = let '(lines', pos', w') := loop_body line pre pos w in
    (lines' ++ tail, pos', w').
Proof.
  intros Hl Ht. unfold loop_body. rewrite Hl.
  destruct (heading_of line) as [[n t]|].
  { now destruct (emit_block _ _ _ _). }
  destruct (is_quote line).
  - rewrite app_comm_cons, quote_scan_app by assumption.
    destruct (quote_scan (line :: pre) []) as [q after].
    now destruct (if truthy q then _ else _).
  - destruct (is_list_item line); [now destruct (emit_block _ _ _ _)|].
    destruct (matches hrule_pattern line);
      [now destruct (emit_block _ _ _ _)|].
    now destruct (emit_paragraph line pos w).
Qed.

(** The loop over lines without a fence, followed by anything that
    starts with a fence. *)
Lemma render_lines_app : forall n pre tail pos w,
  length pre <= n -> no_fence pre = true -> fence_or_end tail ->
  render_lines (pre ++ tail) pos w
  = match render_lines pre pos w with
    | Some (pos1, w1) => render_lines tail pos1 w1
    | None => None
    end.
Proof.
  induction n as [|n IH]; intros [|line pre] tail pos w Hn Hp Ht;
    simpl in Hn; try lia; try reflexivity.
  simpl in Hp. apply andb_true_iff in Hp as [Hl Hp].
  apply negb_true_iff in Hl.
  rewrite <- app_comm_cons, !render_lines_cons.
  rewrite loop_body_app by assumption.
  destruct (loop_body_suffix line pre pos w) as [k Hk].
  destruct (loop_body line pre pos w) as [[lines' pos'] w'].
  simpl in Hk. subst lines'.
  apply IH; [rewrite length_skipn; lia|now apply no_fence_skipn|assumption].
Qed.

(** A buffer up to and including its first fenced block. *)
Lemma render_first_fence pre opener body tail pos w :
  no_fence pre = true -> is_fence opener = true ->
  no_fence body = true -> fence_or_end tail ->
  render_lines (pre ++ opener :: body ++ tail) pos w
  = match render_lines pre pos w with
    | Some (pos1, w1) =>
        let (pos2, w2) := emit_code body pos1 w1 in
        render_lines (tl tail) pos2 w2
    | None => None
    end.
Proof.
  intros Hp Ho Hb Ht.
  rewrite (render_lines_app (length pre)) by (simpl; auto).
  destruct (render_lines pre pos w) as [[pos1 w1]|]; [|reflexivity].
  rewrite render_lines_cons, fence_step by assumption.
  now destruct (emit_code body pos1 w1).
Qed.

(** C6. In a buffer whose first fence line is [opener], the lines
    [body] that follow it, up to the next fence line or to the end of the
    buffer when there is none, are displayed as one block of code: what is
    appended to the text is these lines joined and ended by newlines, as
    they are, under the single tag [code_block] (no inline format, no
    heading), and neither fence line is displayed.  The rendering then
    goes on after the closing fence, and it ends. *)
Theorem fenced_lines_are_verbatim_code text pre opener body tail w :
  split newline text = pre ++ opener :: body ++ tail ->
  no_fence pre = true -> is_fence opener = true ->
  no_fence body = true -> fence_or_end tail ->
  content w = [] ->
  exists pos1 w1,
    render_lines pre 0 w = Some (pos1, w1)
    /\ at_end pos1 w1
    /\ _render_markdown_text text w
       = (let (pos2, w2) := emit_code body pos1 w1 in
          option_map snd (render_lines (tl tail) pos2 w2))
    /\ (exists w', _render_markdown_text text w = Some w')
    /\ emit_code body pos1 w1
       = if truthy body then
           let code_text := join [newline] body ++ [newline] in
           let end_pos := (pos1 + Z.of_nat (length code_text))%Z in
           (end_pos,
            {| content := content w1 ++ code_text;
               tag_ranges := tag_ranges w1
                             ++ [(code_block, At pos1, At end_pos)] |})
         else (pos1, w1).
Proof.
  intros Hsplit Hp Ho Hb Ht Hw.
  assert (Htext : truthy text = true).
  { destruct text; [|reflexivity]. simpl in Hsplit.
    destruct pre as [|x pre]; simpl in Hsplit; inversion Hsplit.
    - subst. discriminate.
    - destruct pre; discriminate. }
  destruct (render_lines_total pre 0%Z w) as [[pos1 w1] Hpre].
  assert (Hend : at_end pos1 w1).
  { apply (render_loop_end (length pre) pre 0%Z w pos1 w1);
      [|exact Hpre]. unfold at_end. now rewrite Hw. }
  exists pos1, w1. split; [assumption|]. split; [assumption|].
  assert (Heq : _render_markdown_text text w
                = (let (pos2, w2) := emit_code body pos1 w1 in
                   option_map snd (render_lines (tl tail) pos2 w2))).
  { unfold _render_markdown_text. rewrite Htext. simpl negb. cbv iota.
    rewrite Hsplit, render_first_fence, Hpre by assumption.
    now destruct (emit_code body pos1 w1). }
  split; [assumption|]. split.
  - rewrite Heq. destruct (emit_code body pos1 w1) as [pos2 w2].
    destruct (render_lines_total (tl tail) pos2 w2) as [[pos3 w3] ->].
    simpl. eauto.
  - unfold emit_code, emit_block. destruct (truthy body); [|reflexivity].
    cbv zeta. unfold tag_add. cbn [content tag_ranges].
    now rewrite (insert_at_end _ _ _ Hend).
Qed.


End Fences.

End FenceFacts.

(* ===================================================================== *)
(** ** The renderer on concrete lines and buffers *)
(* ===================================================================== *)

Module Examples.
Import Py Re Inline Tk MarkdownText RenderFacts BlockFacts FenceFacts.

(** C1. On the line [**x ***a*** y**] the formatter returns two formats
    that overlap: the bold-italic pass records [a] at 4..5, and the bold
    pass then accepts the match around it, strips its stars and records
    0..5.  Only code ranges are ever passed to [_position_in_ranges]. *)
Theorem bold_overlaps_bold_italic :
  _process_inline_formatting (lit "**x ***a*** y**")
  = (lit "x a y", [fmt_of 4 5 bold_italic; fmt_of 0 5 bold])
  /\ overlaps (fmt_of 4 5 bold_italic) (fmt_of 0 5 bold) = true
  /\ non_overlapping
       (snd (_process_inline_formatting (lit "**x ***a*** y**"))) = false.
Proof. repeat split; vm_compute; reflexivity. Qed.

(** C2. The end-to-end example.  The heading and the paragraph text are
    as stated, and so are the bold and italic formats; the inline-code
    format is recorded at 31..35, where the backquoted word stood before
    the bold and italic passes removed six characters on its left, while
    the final text is 30 characters long and holds [code] at 25..29. *)
Theorem end_to_end_example :
  let paragraph := lit "Some **bold** and *italic* and `code`." in
  let final := lit "Some bold and italic and code." in
  _process_inline_formatting paragraph
  = (final, [fmt_of 31 35 inline_code; fmt_of 5 9 bold;
             fmt_of 14 20 italic])
  /\ covered final (fmt_of 5 9 bold) = lit "bold"
  /\ covered final (fmt_of 14 20 italic) = lit "italic"
  /\ covered final (fmt_of 31 35 inline_code) = []
  /\ covered final (fmt_of 25 29 inline_code) = lit "code"
  /\ length final = 30
  /\ _render_markdown_text
       (lit "# Title" ++ [newline; newline] ++ paragraph ++ [newline])
       empty
     = Some {| content := lit "Title" ++ [newline; newline] ++ final
                          ++ [newline; newline];
               tag_ranges := [(h 1, At 0, At 6);
                              (fmt_tag inline_code, At 38, At 42);
                              (fmt_tag bold, At 12, At 16);
                              (fmt_tag italic, At 21, At 27)] |}.
Proof. repeat split; vm_compute; reflexivity. Qed.

(** C3. Alone on its line the backquoted [**not bold**] is one
    inline-code format over the whole inner text and nothing else.  With
    six more code spans further right on the line, [_position_in_ranges]
    shifts the bold match by the 14 characters removed so far, past the
    code range it lies in: the match is accepted, a bold format is
    recorded and the stars are stripped.  With one more code span the
    inline-code format of the inner text is recorded at -2..10. *)
Theorem code_immunity_examples :
  _process_inline_formatting (lit "`**not bold**`")
  = (lit "**not bold**", [fmt_of 0 12 inline_code])
  /\ _process_inline_formatting
       (lit "`**not bold**` is literal; compare `a`, `b`, `c`, `d`, `e`, `f`")
     = (lit "not bold is literal; compare a, b, c, d, e, f",
        [fmt_of 60 61 inline_code; fmt_of 53 54 inline_code;
         fmt_of 46 47 inline_code; fmt_of 39 40 inline_code;
         fmt_of 32 33 inline_code; fmt_of 25 26 inline_code;
         fmt_of (-12) 0 inline_code; fmt_of 0 8 bold])
  /\ _process_inline_formatting (lit "`**not bold**` `x`")
     = (lit "**not bold** x",
        [fmt_of 15 16 inline_code; fmt_of (-2) 10 inline_code]).
Proof. repeat split; vm_compute; reflexivity. Qed.

(** C5. An ordered item keeps its text when it is not indented; when it
    is, the second substitution writes group 1 and then the whole match,
    so the indentation comes twice.  An unordered marker becomes the
    bullet, with the indentation kept. *)
Theorem list_item_examples :
  loop_body (lit "1. item") [] 0 empty
  = ([], 8%Z,
     {| content := lit "1. item" ++ [newline];
        tag_ranges := [(list_item, At 0, At 8)] |})
  /\ loop_body (lit "  1. item") [] 0 empty
     = ([], 12%Z,
        {| content := lit "    1. item" ++ [newline];
           tag_ranges := [(list_item, At 0, At 12)] |})
  /\ loop_body (lit "  - item") [] 0 empty
     = ([], 9%Z,
        {| content := lit "  " ++ [bullet] ++ lit " item" ++ [newline];
           tag_ranges := [(list_item, At 0, At 9)] |}).
Proof. repeat split; vm_compute; reflexivity. Qed.

(** C4, as stated, fails on [## Title ##] (the closing run of ['#'] is
    stripped too: the title is [Title], not [Title ##]), on [# #] (no
    title is left, so no heading is made) and on [##### **x**] (the
    paragraph is formatted, not literal). *)
Lemma heading_claim_counterexample :
  (claimed_heading_turn (lit "## Title ##") [] 0 empty
   = Some ([], 9%Z,
           {| content := lit "Title ##" ++ [newline];
              tag_ranges := [(h 2, At 0, At 9)] |})
   /\ loop_body (lit "## Title ##") [] 0 empty
      = ([], 6%Z,
         {| content := lit "Title" ++ [newline];
            tag_ranges := [(h 2, At 0, At 6)] |})
   /\ Some (loop_body (lit "## Title ##") [] 0 empty)
      <> claimed_heading_turn (lit "## Title ##") [] 0 empty)
  /\ (claimed_heading_turn (lit "# #") [] 0 empty
      = Some ([], 2%Z,
              {| content := lit "#" ++ [newline];
                 tag_ranges := [(h 1, At 0, At 2)] |})
      /\ loop_body (lit "# #") [] 0 empty
         = ([], 4%Z,
            {| content := lit "# #" ++ [newline]; tag_ranges := [] |})
      /\ Some (loop_body (lit "# #") [] 0 empty)
         <> claimed_heading_turn (lit "# #") [] 0 empty)
  /\ (4 < hash_count (lit "##### **x**")
      /\ loop_body (lit "##### **x**") [] 0 empty
         = ([], 8%Z,
            {| content := lit "##### x" ++ [newline];
               tag_ranges := [(fmt_tag bold, At 6, At 7)] |})
      /\ loop_body (lit "##### **x**") [] 0 empty
         <> claimed_literal_paragraph (lit "##### **x**") [] 0 empty).
Proof.
  repeat split; try (vm_compute; reflexivity); try (vm_compute; lia);
    vm_compute; discriminate.
Qed.

(** The theorem of C4 on [## Title ##] and on [##### Too Deep]. *)
Lemma heading_level_and_title_witness :
  ((1 <= hash_count (lit "## Title ##") <= 4
    /\ title_text (lit "## Title ##") <> [])
   /\ loop_body (lit "## Title ##") [lit "next"] 0 empty
      = ([lit "next"], 6%Z,
         {| content := lit "Title" ++ [newline];
            tag_ranges := [(h 2, At 0, At 6)] |}))
  /\ (4 < hash_count (lit "##### Too Deep")
      /\ loop_body (lit "##### Too Deep") [] 0 empty
         = ([], 15%Z,
            {| content := lit "##### Too Deep" ++ [newline];
               tag_ranges := [] |})).
Proof.
  assert (H1 : 1 <= hash_count (lit "## Title ##") <= 4)
    by (vm_compute; lia).
  assert (H2 : title_text (lit "## Title ##") <> [])
    by (vm_compute; discriminate).
  assert (H3 : 4 < hash_count (lit "##### Too Deep"))
    by (vm_compute; lia).
  destruct (@heading_level_and_title ascii_digits) as [Ha Hb].
  split; (split; [auto|]).
  - rewrite (Ha _ _ _ _ H1 H2). vm_compute. reflexivity.
  - rewrite (Hb _ _ _ _ H3). vm_compute. reflexivity.
Defined.

(** C10. Lines whose trimmed content is a run of ['#'] and nothing else.
    ["##"] and ["## "] are no headings and are displayed as they are, with
    no tag.  [" ## "] has the same trimmed content, but the hashes are
    counted and stripped on the line as it is: none is counted, none is
    stripped, so the title is ["##"] and the line is displayed as a
    heading under the tag [h 0]. *)
Theorem hash_only_line_examples :
  (strip (lit "##") = lit "##" /\ strip (lit "## ") = lit "##"
   /\ strip (lit " ## ") = lit "##"
   /\ title_text (lit "##") = [])
  /\ loop_body (lit "##") [] 0 empty
     = ([], 3%Z, {| content := lit "##" ++ [newline]; tag_ranges := [] |})
  /\ loop_body (lit "## ") [] 0 empty
     = ([], 4%Z, {| content := lit "## " ++ [newline]; tag_ranges := [] |})
  /\ hash_count (lit " ## ") = 0
  /\ title_text (lit " ## ") = lit "##"
  /\ heading_of (lit " ## ") = Some (0, lit "##")
  /\ loop_body (lit " ## ") [] 0 empty
     = ([], 3%Z,
        {| content := lit "##" ++ [newline];
           tag_ranges := [(h 0, At 0, At 3)] |}).
Proof. repeat split; vm_compute; reflexivity. Qed.

(** The theorem of C6 on a buffer with one fenced block. *)
Lemma fenced_lines_witness :
  let text := lit "intro" ++ [newline] ++ lit "```py" ++ [newline]
              ++ lit "**not bold**" ++ [newline]
              ++ lit "# not a heading" ++ [newline]
              ++ lit "```" ++ [newline] ++ lit "after" in
  let pre := [lit "intro"] in
  let opener := lit "```py" in
  let body := [lit "**not bold**"; lit "# not a heading"] in
  let tail := [lit "```"; lit "after"] in
  (split newline text = pre ++ opener :: body ++ tail
   /\ no_fence pre = true /\ is_fence opener = true
   /\ no_fence body = true /\ fence_or_end tail
   /\ content empty = [])
  /\ _render_markdown_text text empty
     = Some {| content := lit "intro" ++ [newline]
                          ++ lit "**not bold**" ++ [newline]
                          ++ lit "# not a heading" ++ [newline]
                          ++ lit "after" ++ [newline];
               tag_ranges := [(code_block, At 6, At 35)] |}.
Proof.
  intros text pre opener body tail.
  assert (H1 : split newline text = pre ++ opener :: body ++ tail)
    by reflexivity.
  assert (H2 : no_fence pre = true) by reflexivity.
  assert (H3 : is_fence opener = true) by reflexivity.
  assert (H4 : no_fence body = true) by reflexivity.
  assert (H5 : fence_or_end tail) by reflexivity.
  assert (H6 : content empty = []) by reflexivity.
  split; [auto 7|].
  destruct (@fenced_lines_are_verbatim_code ascii_digits text pre opener
              body tail empty H1 H2 H3 H4 H5 H6)
    as (pos1 & w1 & Hpre & _ & Heq & _).
  rewrite Heq.
  assert (Hv : render_lines pre 0 empty
               = Some (6%Z, {| content := lit "intro" ++ [newline];
                               tag_ranges := [] |}))
    by reflexivity.
  rewrite Hv in Hpre. inversion Hpre; subst pos1 w1.
  reflexivity.
Defined.

(** Lines with white space before the ['#']: the ['#'] are counted and
    stripped on the line as it is, so the level is 0 and the run stays in
    the title. *)
Lemma leading_space_heading_examples :
  loop_body (lit "  # Title") [] 0 empty
  = ([], 8%Z,
     {| content := lit "# Title" ++ [newline];
        tag_ranges := [(h 0, At 0, At 8)] |})
  /\ loop_body (lit " ## ") [] 0 empty
     = ([], 3%Z,
        {| content := lit "##" ++ [newline];
           tag_ranges := [(h 0, At 0, At 3)] |}).
Proof. repeat split; vm_compute; reflexivity. Qed.

(** The theorem of C9 on a line with a bold and a code span. *)
Lemma offset_counts_witness :
  length (lit "a **b** and `c`")
  = length (processed_text (inline_passes (lit "a **b** and `c`")))
    + offset (inline_passes (lit "a **b** and `c`"))
  /\ (In {| m_start := 2; m_end := 7; m_group1 := lit "b" |}
         (finditer bold_pattern (lit "a **b** and c"))
      /\ 7 - 2 = length (lit "b") + 4).
Proof.
  destruct InlineFacts.offset_counts_removed_characters as (H1 & H2 & _).
  split; [apply H1|].
  assert (Hin : In {| m_start := 2; m_end := 7; m_group1 := lit "b" |}
                   (finditer bold_pattern (lit "a **b** and c")))
    by (vm_compute; auto).
  split; [exact Hin|].
  destruct (H2 (lit "a **b** and c")
               {| m_start := 2; m_end := 7; m_group1 := lit "b" |})
    as (_ & _ & _ & Hb & _).
  exact (Hb Hin).
Defined.


End Examples.

(* ===================================================================== *)
(** ** More of the block segmenter: quotes, rules, lists, plain lines *)
(* ===================================================================== *)

Module MoreBlocks.
Import Py Re Inline Tk MarkdownText ReFacts PyFacts PatternFacts.
Import RenderFacts NoMatch ListFacts.

Lemma quote_line_strip l :
  is_quote l = true -> exists t, strip l = chr ">" :: t.
Proof.
  unfold is_quote. destruct (strip l) as [|c t]; [discriminate|].
  cbn [startswith lit list_ascii_of_string map].
  intros H. apply andb_true_iff in H as [H _].
  apply N.eqb_eq in H. subst c. eauto.
Qed.

Lemma quote_line_branches l :
  is_quote l = true -> is_fence l = false /\ heading_of l = None.
Proof.
  intros H. destruct (quote_line_strip l H) as [t Hs].
  unfold is_fence, heading_of. rewrite Hs. split; reflexivity.
Qed.

Lemma quote_scan_run run after : forall acc,
  forallb is_quote run = true -> quote_ends after ->
  quote_scan (run ++ after) acc = (acc ++ map quote_text run, after).
Proof.
  induction run as [|l run IH]; intros acc Hr Ha.
  - cbn [app map]. rewrite app_nil_r.
    destruct after as [|x after]; [reflexivity|].
    change (is_quote x = false) in Ha.
    rewrite quote_scan_cons, Ha. reflexivity.
  - cbn [forallb] in Hr. apply andb_true_iff in Hr as [Hl Hr].
    rewrite <- app_comm_cons, quote_scan_cons, Hl, IH by assumption.
    cbn [map]. now rewrite <- app_assoc.
Qed.

(** The leading white space is all of a line that strips to nothing. *)
Lemma blank_line_span line :
  strip line = [] -> span isspace line = (line, []).
Proof.
  intros Hs. destruct (strip_split line) as (a & b & Hl & Hspan & Hb).
  rewrite Hs in *. cbn [app] in *.
  destruct b as [|c b].
  - rewrite app_nil_r in Hl. now subst a.
  - pose proof (span_rest_head _ _ _ _ _ Hspan) as Hc.
    cbn in Hb. now rewrite Hc in Hb.
Qed.

(** The first character of the stripped line follows the leading white
    space. *)
Lemma strip_cons_span line c t :
  strip line = c :: t ->
  exists a s, span isspace line = (a, c :: s) /\ isspace c = false.
Proof.
  intros Hs. destruct (strip_split line) as (a & b & _ & Hspan & _).
  rewrite Hs in Hspan. cbn [app] in Hspan.
  exists a, (t ++ b). split; [assumption|].
  exact (span_rest_head _ _ _ _ _ Hspan).
Qed.

Section Blocks.
Context {UD : UnicodeDigits}.

(** The turn of the loop on the first line of a run of quote lines. *)
Lemma quote_run_block line more after pos w :
  forallb is_quote (line :: more) = true ->
  quote_ends after ->
  loop_body line (more ++ after) pos w
  = let (pos', w') :=
      emit_block blockquote
                 (join [newline] (map quote_text (line :: more))
                  ++ [newline]) pos w in
    (after, pos', w').
Proof.
  intros Hr Ha. pose proof Hr as Hl. cbn [forallb] in Hl.
  apply andb_true_iff in Hl as [Hl _].
  destruct (quote_line_branches line Hl) as [Hf Hh].
  unfold loop_body. rewrite Hf, Hh, Hl.
  rewrite (app_comm_cons more after line).
  rewrite (quote_scan_run (line :: more) after [] Hr Ha).
  reflexivity.
Qed.

(** X1. Consecutive quote lines are one block: a run of lines whose
    stripped text starts with ['>'], followed by a line that is no quote
    or by the end of the text, is consumed in one turn of the loop and
    displayed as one [blockquote] range; each line is shown without its
    ['>'] characters and the white space around them, the lines are
    joined by newlines. *)
Theorem quote_run_is_one_block line more after pos w :
  forallb is_quote (line :: more) = true ->
  quote_ends after ->
  loop_body line (more ++ after) pos w
  = let (pos', w') :=
      emit_block blockquote
                 (join [newline] (map quote_text (line :: more))
                  ++ [newline]) pos w in
    (after, pos', w').
Proof. apply quote_run_block. Qed.

(** X2. A line that matches [^\s*[-*_]{3,}\s*$] is displayed as fifty
    box-drawing dashes and a newline under the tag [normal], whatever
    its indentation, its marker and the number of markers: no earlier
    branch of the loop takes such a line. *)
Theorem rule_line_is_fifty_dashes line rest pos w :
  matches hrule_pattern line = true ->
  loop_body line rest pos w
  = let (pos', w') :=
      emit_block normal (repeat rule_glyph 50 ++ [newline]) pos w in
    (rest, pos', w').
Proof.
  intros H. pose proof H as H'. rewrite hrule_exec in H'.
  unfold match_hrule in H'.
  destruct (span isspace line) as [a s1] eqn:E.
  destruct (span is_rule_char s1) as [marks s2] eqn:E2.
  destruct (span isspace s2) as [ws s3].
  apply andb_true_iff in H' as [Hn _]. apply Nat.leb_le in Hn.
  destruct marks as [|m [|m2 marks]]; try (simpl in Hn; lia).
  pose proof (span_all _ _ _ _ E2) as Hm. cbn [forallb] in Hm.
  apply andb_true_iff in Hm as [Hm Hm2].
  apply andb_true_iff in Hm2 as [Hm2 _].
  pose proof (span_app _ _ _ _ E2) as L2. cbn [app] in L2. subst s1.
  destruct (strip_head _ _ _ _ E) as [t Hs].
  assert (Hc : eqc m (chr "`") = false /\ eqc m (chr "#") = false
               /\ eqc m (chr ">") = false /\ isdecimal m = false).
  { destruct (rule_cases m Hm) as [->|[->| ->]]; repeat split;
      apply isdecimal_ascii; reflexivity. }
  destruct Hc as (M1 & M2 & M3 & M4).
  destruct (first_char_branches line m t Hs M1 M2 M3) as (Hf & Hh & Hq).
  assert (Hu : match_unordered line = None).
  { unfold match_unordered. rewrite E.
    destruct (is_list_marker m); [|reflexivity].
    cbn [app]. rewrite span_none by now apply rule_not_space.
    reflexivity. }
  assert (Ho : match_ordered line = None).
  { unfold match_ordered. rewrite E. now rewrite span_none. }
  unfold loop_body.
  rewrite Hf, Hh, Hq, is_list_item_shape, Hu, Ho, H. reflexivity.
Qed.

(** X3. An unordered list item, that is a line matching
    [^\s*[-*+]\s+], is displayed under the tag [list_item] with its
    indentation kept, its marker and all the white space after the
    marker replaced by a bullet and one space, and the rest of the line
    unchanged: the text of a list item is not given to the inline
    formatter. *)
Theorem unordered_item_gets_a_bullet line rest pos w :
  matches unordered_test line = true ->
  exists indent m ws text,
    line = indent ++ m :: ws ++ text
    /\ forallb isspace indent = true
    /\ is_list_marker m = true
    /\ ws <> [] /\ forallb isspace ws = true
    /\ match text with c :: _ => isspace c = false | [] => True end
    /\ loop_body line rest pos w
       = let (pos', w') :=
           emit_block list_item
                      (indent ++ [bullet; chr " "] ++ text ++ [newline])
                      pos w in
         (rest, pos', w').
Proof.
  intros H. unfold matches in H. rewrite (unordered_exec false) in H.
  destruct (match_unordered line) as [[indent text]|] eqn:Hu;
    [clear H|discriminate].
  pose proof (unordered_item_block line indent text rest pos w Hu) as Hb.
  unfold match_unordered in Hu.
  destruct (span isspace line) as [a s1] eqn:E.
  destruct s1 as [|m s2]; [discriminate|].
  destruct (is_list_marker m) eqn:Em; [|discriminate].
  destruct (span isspace s2) as [ws r] eqn:E2.
  destruct ws as [|x ws]; [discriminate|].
  inversion Hu; subst a r; clear Hu.
  exists indent, m, (x :: ws), text.
  split; [|split; [|split; [|split; [|split; [|split]]]]].
  - rewrite (span_app _ _ _ _ E). f_equal. f_equal.
    exact (span_app _ _ _ _ E2).
  - exact (span_all _ _ _ _ E).
  - exact Em.
  - discriminate.
  - exact (span_all _ _ _ _ E2).
  - destruct text as [|c text]; [exact I|].
    exact (span_rest_head _ _ _ _ _ E2).
  - rewrite Hb. now rewrite <- !app_assoc.
Qed.

(** X4. An ordered list item, that is a line matching [^\s*\d+\.\s+],
    is displayed under the tag [list_item] as its own leading white
    space followed by the whole line: the second substitution writes
    group 1 in front of the match.  A line that starts with the number
    is therefore displayed as it is, and an indented one has its
    indentation doubled. *)
Theorem ordered_item_repeats_its_indentation line rest pos w :
  matches ordered_test line = true ->
  loop_body line rest pos w
  = let (pos', w') :=
      emit_block list_item
                 (fst (span isspace line) ++ line ++ [newline]) pos w in
    (rest, pos', w').
Proof.
  intros H. unfold matches in H. rewrite (ordered_exec false) in H.
  destruct (match_ordered line) as [[[g1 g0] text]|] eqn:Ho;
    [clear H|discriminate].
  destruct (ordered_item_block line g1 g0 text rest pos w Ho) as [_ Hb].
  destruct (match_ordered_split line g1 g0 text Ho)
    as (_ & d & ds & E & _).
  rewrite Hb, E. cbn [fst]. now rewrite <- app_assoc.
Qed.

Lemma not_block_marker c :
  block_marker c = false ->
  eqc c (chr "`") = false /\ eqc c (chr "#") = false
  /\ eqc c (chr ">") = false /\ is_list_marker c = false
  /\ is_rule_char c = false.
Proof.
  unfold block_marker, is_list_marker, is_rule_char.
  cbn [existsb lit list_ascii_of_string map].
  fold (chr "`") (chr "#") (chr ">") (chr "-") (chr "*") (chr "+")
       (chr "_").
  intros H. repeat (apply orb_false_iff in H as [? H]).
  repeat split; try assumption;
    repeat (apply orb_false_iff; split); assumption.
Qed.

(** The turn of the loop on a line without markdown. *)
Lemma plain_line_block line rest pos w :
  match strip line with
  | [] => True
  | c :: _ => block_marker c = false /\ isdecimal c = false
  end ->
  count (chr "`") line < 2 ->
  count (chr "~") line < 4 ->
  count (chr "*") line < 2 ->
  (count (chr "[") line = 0 \/ count (chr "]") line = 0
   \/ count (chr "(") line = 0 \/ count (chr ")") line = 0) ->
  loop_body line rest pos w
  = (rest, (pos + Z.of_nat (length (line ++ [newline])))%Z,
     insert (At pos) (line ++ [newline]) w).
Proof.
  intros Hc Hq Ht Hs Hl.
  assert (Hbr : is_fence line = false /\ heading_of line = None
                /\ is_quote line = false
                /\ match_unordered line = None
                /\ match_ordered line = None
                /\ match_hrule line = false).
  { destruct (strip line) as [|c t] eqn:Es.
    - unfold is_fence, heading_of, is_quote, match_unordered,
        match_ordered, match_hrule.
      rewrite Es, (blank_line_span line Es). repeat split.
    - destruct Hc as [Hm Hd].
      destruct (not_block_marker c Hm) as (M1 & M2 & M3 & M4 & M5).
      destruct (first_char_branches line c t Es M1 M2 M3)
        as (Hf & Hh & Hq').
      destruct (strip_cons_span line c t Es) as (a & s & E & _).
      unfold match_unordered, match_ordered, match_hrule.
      rewrite E, M4. rewrite !span_none by assumption.
      repeat split; try assumption.
      now destruct (span isspace (c :: s)). }
  destruct Hbr as (Hf & Hh & Hq' & Hu & Ho & Hr).
  unfold loop_body.
  rewrite Hf, Hh, Hq', is_list_item_shape, Hu, Ho, hrule_exec, Hr.
  unfold emit_paragraph.
  rewrite (unmatched_line_is_literal line Hq Ht Hs Hl). reflexivity.
Qed.

(** X5. A line of plain text is displayed as it is, with no tag: when
    the first character after the leading white space, if there is
    one, is neither a block marker nor a digit, and the line has too
    few delimiters for any inline pattern, the turn of the loop inserts
    the line and a newline at the current position and adds no tag
    range.  Blank lines are such lines. *)
Theorem plain_line_is_inserted_as_it_is line rest pos w :
  match strip line with
  | [] => True
  | c :: _ => block_marker c = false /\ isdecimal c = false
  end ->
  count (chr "`") line < 2 ->
  count (chr "~") line < 4 ->
  count (chr "*") line < 2 ->
  (count (chr "[") line = 0 \/ count (chr "]") line = 0
   \/ count (chr "(") line = 0 \/ count (chr ")") line = 0) ->
  loop_body line rest pos w
  = (rest, (pos + Z.of_nat (length (line ++ [newline])))%Z,
     insert (At pos) (line ++ [newline]) w).
Proof. apply plain_line_block. Qed.

End Blocks.

End MoreBlocks.

(* ===================================================================== *)
(** ** The buffer and the two render modes *)
(* ===================================================================== *)

Module WidgetFacts.
Import Py Re Inline Tk MarkdownText PyFacts RenderFacts NoMatch.

Lemma split_length sep s : length (split sep s) = S (count sep s).
Proof.
  unfold count. induction s as [|c s IH]; [reflexivity|].
  cbn [split count_occ]. unfold eqc.
  destruct (N.eq_dec c sep) as [->|Hne].
  - rewrite N.eqb_refl. cbn [length]. now rewrite IH.
  - apply N.eqb_neq in Hne. rewrite Hne.
    destruct (split sep s) as [|l ls]; [discriminate|].
    cbn [length] in *. exact IH.
Qed.

(** X6. The line count of the buffer is one more than the number of
    newlines in it: an empty or cleared buffer counts one line, and
    appending text adds the newlines of the text and of its [end]. *)
Theorem line_count_is_newlines_plus_one (self : widget) :
  get_line_count self = S (count newline (raw_content self))
  /\ get_line_count (clear_all self) = 1
  /\ forall text end_,
      get_line_count (append_raw_text text end_ self)
      = get_line_count self + count newline (text ++ end_).
Proof.
  unfold get_line_count. split; [apply split_length|].
  split; [reflexivity|]. intros text end_.
  rewrite !split_length. unfold append_raw_text. cbn [raw_content].
  destruct end_ as [|c e]; cbn [truthy].
  - rewrite app_nil_r, count_app. lia.
  - rewrite !count_app. lia.
Qed.

Section Modes.
Context {UD : UnicodeDigits}.

(** The display after [render_as_markdown] is the rendering of the
    buffer on an empty widget. *)
Lemma render_as_markdown_display self :
  exists w,
    _render_markdown_text (raw_content self) empty = Some w
    /\ render_as_markdown self
       = Some {| raw_content := raw_content self;
                 markdown_enabled := markdown_enabled self;
                 display := w |}.
Proof.
  unfold render_as_markdown.
  change (delete_all (display self)) with empty.
  unfold _render_markdown_text.
  destruct (negb (truthy (raw_content self))); [eauto|].
  destruct (render_lines_total (split newline (raw_content self)) 0%Z
                               empty) as [[p w] ->].
  simpl. eauto.
Qed.

(** Both modes draw from the buffer and the flag alone. *)
Lemma render_as_markdown_ext s1 s2 :
  raw_content s1 = raw_content s2 ->
  markdown_enabled s1 = markdown_enabled s2 ->
  render_as_markdown s1 = render_as_markdown s2.
Proof.
  intros Hr Hm. unfold render_as_markdown.
  change (delete_all (display s1)) with empty.
  change (delete_all (display s2)) with empty.
  now rewrite Hr, Hm.
Qed.

Lemma render_as_plain_text_ext s1 s2 :
  raw_content s1 = raw_content s2 ->
  markdown_enabled s1 = markdown_enabled s2 ->
  render_as_plain_text s1 = render_as_plain_text s2.
Proof.
  intros Hr Hm. unfold render_as_plain_text.
  change (delete_all (display s1)) with empty.
  change (delete_all (display s2)) with empty.
  now rewrite Hr, Hm.
Qed.

(** X7. Rendering as markdown always succeeds, keeps the buffer and the
    flag, does not depend on what the widget displayed before, and is
    idempotent: rendering the result again gives the same widget. *)
Theorem markdown_rendering_is_idempotent (self : widget) :
  exists s',
    render_as_markdown self = Some s'
    /\ raw_content s' = raw_content self
    /\ markdown_enabled s' = markdown_enabled self
    /\ render_as_markdown s' = Some s'
    /\ forall shown,
        render_as_markdown {| raw_content := raw_content self;
                              markdown_enabled := markdown_enabled self;
                              display := shown |}
        = Some s'.
Proof.
  destruct (render_as_markdown_display self) as (w & Hw & Hs).
  eexists. split; [exact Hs|]. cbn [raw_content markdown_enabled].
  split; [reflexivity|]. split; [reflexivity|]. split.
  - rewrite <- Hs. now apply render_as_markdown_ext.
  - intros shown. rewrite <- Hs. now apply render_as_markdown_ext.
Qed.

(** X8. The last mode switch wins: switching to one mode and then to
    another leaves the widget as the second switch alone would, so the
    display of either mode can always be recovered from the other, and
    no switch changes the buffer. *)
Theorem last_mode_switch_wins (first second : bool) (self : widget) :
  match switch_render_mode first self with
  | Some s =>
      raw_content s = raw_content self
      /\ markdown_enabled s = first
      /\ switch_render_mode second s = switch_render_mode second self
  | None => False
  end.
Proof.
  unfold switch_render_mode at 1.
  destruct first.
  - match goal with |- context [render_as_markdown ?s] =>
      destruct (render_as_markdown_display s) as (w & _ & ->) end.
    cbn [raw_content markdown_enabled]. repeat split.
  - cbn [render_as_plain_text raw_content markdown_enabled].
    repeat split.
Qed.

(** One streamed chunk always gives a widget: its buffer has the chunk
    at its end, its flag is unchanged. *)
Lemma streaming_step b chunk self :
  exists s,
    _append_streaming_content b chunk self = Some s
    /\ raw_content s = raw_content self ++ chunk
    /\ markdown_enabled s = markdown_enabled self.
Proof.
  unfold _append_streaming_content. destruct b.
  - match goal with |- context [render_as_markdown ?s] =>
      destruct (render_as_markdown_display s) as (w & _ & ->) end.
    eexists. split; [reflexivity|]. split; reflexivity.
  - eexists. split; [reflexivity|]. split; reflexivity.
Qed.

Lemma streaming_ext b chunk s1 s2 :
  raw_content s1 = raw_content s2 ->
  markdown_enabled s1 = markdown_enabled s2 ->
  _append_streaming_content b chunk s1
  = _append_streaming_content b chunk s2.
Proof.
  intros Hr Hm. unfold _append_streaming_content. destruct b.
  - apply render_as_markdown_ext; cbn; congruence.
  - f_equal. apply render_as_plain_text_ext; cbn; congruence.
Qed.

Lemma stream_cons b chunk chunks self :
  stream b (chunk :: chunks) self
  = match _append_streaming_content b chunk self with
    | Some s => stream b chunks s
    | None => None
    end.
Proof.
  unfold stream. cbn [fold_left].
  destruct (_append_streaming_content b chunk self); [reflexivity|].
  induction chunks as [|c chunks IH]; [reflexivity|exact IH].
Qed.

(** X9. Chunk boundaries of a stream are invisible: after the chunks of
    a response have been appended one by one, each followed by a new
    rendering of the whole buffer, the widget is the one a single call
    with the concatenated response gives, in either mode. *)
Theorem stream_equals_one_append (b : bool) (chunks : list str)
        (self : widget) :
  chunks <> [] ->
  stream b chunks self
  = _append_streaming_content b (concat chunks) self.
Proof.
  destruct chunks as [|chunk chunks]; [congruence|]. intros _.
  revert chunk self.
  induction chunks as [|c chunks IH]; intros chunk self.
  - rewrite stream_cons. cbn [concat]. rewrite app_nil_r.
    now destruct (_append_streaming_content b chunk self).
  - rewrite stream_cons.
    destruct (streaming_step b chunk self) as (s & -> & Hr & Hm).
    rewrite IH.
    change (concat (chunk :: c :: chunks))
      with (chunk ++ concat (c :: chunks)).
    unfold _append_streaming_content.
    destruct b.
    + apply render_as_markdown_ext; cbn [append_raw_text raw_content
        markdown_enabled truthy]; [|assumption].
      now rewrite Hr, app_assoc.
    + f_equal.
      apply render_as_plain_text_ext; cbn [append_raw_text raw_content
        markdown_enabled truthy]; [|assumption].
      now rewrite Hr, app_assoc.
Qed.

Lemma append_all_cons enabled m msgs self :
  append_all enabled (m :: msgs) self
  = match append_and_render (fst m) (snd m) enabled self with
    | Some s => append_all enabled msgs s
    | None => None
    end.
Proof.
  unfold append_all. cbn [fold_left].
  destruct (append_and_render (fst m) (snd m) enabled self);
    [reflexivity|].
  induction msgs as [|c msgs IH]; [reflexivity|exact IH].
Qed.

Lemma append_raw_text_raw text end_ self :
  raw_content (append_raw_text text end_ self)
  = raw_content self ++ text ++ end_.
Proof.
  unfold append_raw_text. cbn [raw_content].
  destruct end_; cbn [truthy]; [now rewrite app_nil_r|].
  now rewrite app_assoc.
Qed.

(** In plain mode the widget shows its buffer after every message. *)
Lemma append_all_plain msgs : forall self,
  content (display self) = raw_content self ->
  exists s,
    append_all false msgs self = Some s
    /\ content (display s) = raw_content s
    /\ raw_content s
       = raw_content self ++ concat (map (fun m => fst m ++ snd m) msgs).
Proof.
  induction msgs as [|m msgs IH]; intros self Hs.
  - exists self. cbn [map concat]. now rewrite app_nil_r.
  - rewrite append_all_cons. unfold append_and_render.
    destruct (IH (render_as_plain_text
                    (append_raw_text (fst m) (snd m) self)))
      as (s & Hs1 & Hs2 & Hs3).
    { cbn [render_as_plain_text display raw_content tag_add content
           insert delete_all resolve firstn skipn length Nat.min app].
      now rewrite app_nil_r. }
    exists s. split; [exact Hs1|]. split; [exact Hs2|].
    rewrite Hs3. cbn [render_as_plain_text raw_content map concat].
    now rewrite append_raw_text_raw, <- !app_assoc.
Qed.

Lemma fallback_append_all msgs : forall w,
  content (Fallback.append_all false msgs w)
  = content w ++ concat (map (fun m => fst m ++ snd m) msgs).
Proof.
  induction msgs as [|m msgs IH]; intros w.
  - cbn. now rewrite app_nil_r.
  - unfold Fallback.append_all in *. cbn [fold_left map concat].
    rewrite IH. unfold Fallback.append_and_render, insert, resolve.
    cbn [content]. rewrite firstn_all, skipn_all, app_nil_r.
    now rewrite <- !app_assoc.
Qed.

(** X10. With markdown rendering off, the widget and the stand-in class
    of [gui_main.py] show the same text: after [clear_all] and any
    sequence of [append_and_render] calls, both display the
    concatenation of every message and its [end], which is also the
    buffer of the widget. *)
Theorem plain_mode_matches_the_fallback
        (msgs : list (str * str)) (self : widget) (other : Text) :
  exists s,
    append_all false msgs (clear_all self) = Some s
    /\ content (display s)
       = content (Fallback.append_all false msgs
                                      (Fallback.clear_all other))
    /\ content (display s) = raw_content s
    /\ raw_content s = concat (map (fun m => fst m ++ snd m) msgs).
Proof.
  destruct (append_all_plain msgs (clear_all self) eq_refl)
    as (s & Hs1 & Hs2 & Hs3).
  exists s. split; [exact Hs1|]. cbn [clear_all raw_content app] in Hs3.
  rewrite fallback_append_all. cbn [Fallback.clear_all delete_all
    content app].
  rewrite Hs2, Hs3. repeat split.
Qed.

End Modes.

End WidgetFacts.

(* ===================================================================== *)
(** ** The displayed text, line by line *)
(* ===================================================================== *)

Module DisplayFacts.
Import Py Re Inline Tk MarkdownText ReFacts PyFacts PatternFacts.
Import RenderFacts NoMatch ListFacts FenceFacts MoreBlocks WidgetFacts.

Lemma fence_split rest :
  exists body tail,
    rest = body ++ tail /\ no_fence body = true /\ fence_or_end tail.
Proof.
  induction rest as [|l rest (body & tail & Hr & Hb & Ht)].
  - exists [], []. repeat split.
  - destruct (is_fence l) eqn:El.
    + exists [], (l :: rest). repeat split. exact El.
    + exists (l :: body), tail. subst rest. repeat split; [|exact Ht].
      cbn [no_fence forallb]. rewrite El. exact Hb.
Qed.

Lemma quote_split ls :
  exists run after,
    ls = run ++ after /\ forallb is_quote run = true /\ quote_ends after.
Proof.
  induction ls as [|l ls (run & after & Hr & Hb & Ht)].
  - exists [], []. repeat split.
  - destruct (is_quote l) eqn:El.
    + exists (l :: run), after. subst ls. repeat split; [|exact Ht].
      cbn [forallb]. rewrite El. exact Hb.
    + exists [], (l :: ls). repeat split. exact El.
Qed.

Lemma join_concat (sep : char) parts :
  parts <> [] ->
  join [sep] parts ++ [sep] = concat (map (fun p => p ++ [sep]) parts).
Proof.
  induction parts as [|p parts IH]; [congruence|]. intros _.
  destruct parts as [|q parts].
  - cbn. now rewrite app_nil_r.
  - change (join [sep] (p :: q :: parts))
      with (p ++ [sep] ++ join [sep] (q :: parts)).
    change (concat (map (fun p => p ++ [sep]) (p :: q :: parts)))
      with ((p ++ [sep])
            ++ concat (map (fun p => p ++ [sep]) (q :: parts))).
    rewrite <- IH by discriminate. now rewrite <- !app_assoc.
Qed.

Section Display.
Context {UD : UnicodeDigits}.

Lemma shown_code body tail :
  no_fence body = true ->
  shown_text true (body ++ tail)
  = concat (map (fun l => l ++ [newline]) body) ++ shown_text true tail.
Proof.
  induction body as [|l body IH]; intros Hb; [reflexivity|].
  cbn [no_fence forallb] in Hb. apply andb_true_iff in Hb as [Hl Hb].
  apply negb_true_iff in Hl.
  cbn [app shown_text map concat]. rewrite Hl, IH by assumption.
  now rewrite <- !app_assoc.
Qed.

Lemma quote_line_text l :
  is_quote l = true -> line_text l = quote_text l ++ [newline].
Proof.
  intros H. destruct (quote_line_branches l H) as [_ Hh].
  unfold line_text. now rewrite Hh, H.
Qed.

Lemma shown_quotes run after :
  forallb is_quote run = true ->
  shown_text false (run ++ after)
  = concat (map (fun l => quote_text l ++ [newline]) run)
    ++ shown_text false after.
Proof.
  induction run as [|l run IH]; intros Hr; [reflexivity|].
  cbn [forallb] in Hr. apply andb_true_iff in Hr as [Hl Hr].
  destruct (quote_line_branches l Hl) as [Hf _].
  cbn [app shown_text map concat].
  rewrite Hf, IH, (quote_line_text l Hl) by assumption.
  now rewrite <- !app_assoc.
Qed.

(** A turn on a line that is neither a fence nor a quote takes that
    line alone and adds its [line_text]. *)
Lemma loop_body_single line rest pos w :
  is_fence line = false -> is_quote line = false ->
  fst (fst (loop_body line rest pos w)) = rest
  /\ (at_end pos w ->
      content (snd (loop_body line rest pos w))
      = content w ++ line_text line).
Proof.
  intros Hf Hq. unfold loop_body, line_text. rewrite Hf, Hq.
  destruct (heading_of line) as [[n t]|].
  { split; [now destruct (emit_block _ _ _ _)|]. intros H.
    pose proof (emit_block_end (h n) (t ++ [newline]) pos w H) as [_ E].
    now destruct (emit_block _ _ _ _). }
  destruct (is_list_item line).
  { split; [now destruct (emit_block _ _ _ _)|]. intros H.
    pose proof (emit_block_end list_item
                  (sub_ordered (sub_unordered line) ++ [newline])
                  pos w H) as [_ E].
    now destruct (emit_block _ _ _ _). }
  destruct (matches hrule_pattern line).
  { split; [now destruct (emit_block _ _ _ _)|]. intros H.
    pose proof (emit_block_end normal
                  (repeat rule_glyph 50 ++ [newline]) pos w H) as [_ E].
    now destruct (emit_block _ _ _ _). }
  unfold emit_paragraph.
  destruct (_process_inline_formatting line) as [text fs].
  cbn [fst snd]. split; [reflexivity|]. intros H.
  now rewrite apply_format_tags_content, (insert_at_end _ _ _ H).
Qed.

Lemma emit_code_content body pos w :
  at_end pos w ->
  content (snd (emit_code body pos w))
  = content w ++ concat (map (fun l => l ++ [newline]) body).
Proof.
  intros H. unfold emit_code. destruct body as [|l body].
  - cbn. now rewrite app_nil_r.
  - cbn [truthy].
    pose proof (emit_block_end code_block
                  (join [newline] (l :: body) ++ [newline]) pos w H)
      as [_ E].
    rewrite E. f_equal. apply join_concat. discriminate.
Qed.

(** The loop adds [shown_text false lines] to the text of the widget. *)
Lemma render_lines_shown : forall n lines pos w,
  length lines <= n -> at_end pos w ->
  exists pos' w',
    render_lines lines pos w = Some (pos', w')
    /\ at_end pos' w'
    /\ content w' = content w ++ shown_text false lines.
Proof.
  induction n as [|n IH]; intros [|line rest] pos w Hn Hw;
    cbn [length] in Hn; try lia;
    try (exists pos, w; rewrite render_lines_nil; cbn [shown_text];
         rewrite app_nil_r; now repeat split).
  rewrite render_lines_cons.
  pose proof (loop_body_end line rest pos w Hw) as Hend.
  destruct (is_fence line) eqn:Hf.
  - (* a code block *)
    destruct (fence_split rest) as (body & tail & -> & Hb & Ht).
    rewrite (fence_step line body tail pos w Hf Hb Ht) in *.
    pose proof (emit_code_content body pos w Hw) as Hc.
    destruct (emit_code body pos w) as [pos1 w1]. cbn [fst snd] in *.
    destruct (IH (tl tail) pos1 w1) as (pos' & w' & Hr & He & Hc').
    { rewrite length_app in Hn.
      destruct tail; cbn [tl length] in *; lia. }
    { exact Hend. }
    exists pos', w'. split; [exact Hr|]. split; [exact He|].
    rewrite Hc', Hc. cbn [shown_text]. rewrite Hf. cbn [negb].
    rewrite (shown_code body tail Hb), <- app_assoc. do 2 f_equal.
    destruct tail as [|f tail]; [reflexivity|].
    cbn [shown_text tl]. cbn [fence_or_end] in Ht. now rewrite Ht.
  - destruct (is_quote line) eqn:Hq.
    + (* a run of quote lines *)
      destruct (quote_split rest) as (more & after & -> & Hm & Ha).
      assert (Hrun : forallb is_quote (line :: more) = true)
        by (cbn [forallb]; now rewrite Hq).
      rewrite (quote_run_block line more after pos w Hrun Ha) in *.
      match type of Hend with context [emit_block ?t ?x pos w] =>
        pose proof (emit_block_end t x pos w Hw) as [_ Hc];
        destruct (emit_block t x pos w) as [pos1 w1] end.
      cbn [fst snd] in *.
      destruct (IH after pos1 w1) as (pos' & w' & Hr & He & Hc').
      { rewrite length_app in Hn. lia. }
      { exact Hend. }
      exists pos', w'. split; [exact Hr|]. split; [exact He|].
      rewrite Hc', Hc, join_concat by discriminate.
      rewrite map_map, app_comm_cons, (shown_quotes _ after Hrun).
      now rewrite <- app_assoc.
    + (* any other line *)
      destruct (loop_body_single line rest pos w Hf Hq) as [Hl Hc].
      specialize (Hc Hw).
      destruct (loop_body line rest pos w) as [[lines1 pos1] w1].
      cbn [fst snd] in *. subst lines1.
      destruct (IH rest pos1 w1) as (pos' & w' & Hr & He & Hc');
        [lia|exact Hend|].
      exists pos', w'. split; [exact Hr|]. split; [exact He|].
      rewrite Hc', Hc. cbn [shown_text]. rewrite Hf.
      now rewrite <- app_assoc.
Qed.

(** The display after [render_as_markdown], from [render_lines_shown]. *)
Lemma render_as_markdown_shown (self : widget) :
  exists s,
    render_as_markdown self = Some s
    /\ content (display s)
       = if truthy (raw_content self)
         then shown_text false (split newline (raw_content self))
         else [].
Proof.
  destruct (render_as_markdown_display self) as (w & Hw & ->).
  eexists. split; [reflexivity|]. cbn [display].
  unfold _render_markdown_text in Hw.
  destruct (truthy (raw_content self)); cbn [negb] in Hw.
  - destruct (render_lines_shown _ (split newline (raw_content self))
                0%Z empty (le_n _) eq_refl)
      as (pos' & w' & Hr & _ & Hc).
    rewrite Hr in Hw. cbn in Hw. inversion Hw; subst w'. exact Hc.
  - now inversion Hw.
Qed.

(** X11. What the widget displays after a markdown rendering is its
    buffer read line by line: a fence line shows nothing and opens or
    closes a code block, a line inside a code block is shown as it is,
    and any other line shows its own text, whatever the lines around
    it; each shown line ends with a newline.  An empty buffer shows
    nothing. *)
Theorem display_is_read_line_by_line (self : widget) :
  exists s,
    render_as_markdown self = Some s
    /\ content (display s)
       = if truthy (raw_content self)
         then shown_text false (split newline (raw_content self))
         else [].
Proof. apply render_as_markdown_shown. Qed.

Lemma split_app_sep sep a b :
  split sep (a ++ sep :: b) = split sep a ++ split sep b.
Proof.
  induction a as [|c a IH].
  - cbn [app split]. unfold eqc. now rewrite N.eqb_refl.
  - cbn [app split]. rewrite IH.
    destruct (eqc c sep); [reflexivity|].
    pose proof (split_truthy sep a) as Ht.
    destruct (split sep a) as [|l ls]; [discriminate|reflexivity].
Qed.

Lemma shown_text_app pre tail : forall b,
  shown_text b (pre ++ tail)
  = shown_text b pre ++ shown_text (open_after b pre) tail.
Proof.
  unfold open_after.
  induction pre as [|l pre IH]; intros b; [reflexivity|].
  cbn [app shown_text fold_left].
  destruct (is_fence l); rewrite IH; [reflexivity|].
  now rewrite <- app_assoc.
Qed.

(** X12. Text already displayed is kept when whole lines are appended:
    if a streamed chunk begins with a newline, the text displayed after
    it starts with the text displayed before it, and what follows is the
    chunk read line by line, inside a code block when the buffer had
    left one open.  (The tag ranges are not kept: a quote that goes on
    extends its block.) *)
Theorem appended_lines_keep_the_display (chunk : str) (self : widget) :
  exists s1 s2,
    render_as_markdown self = Some s1
    /\ _append_streaming_content true (newline :: chunk) s1 = Some s2
    /\ content (display s2)
       = content (display s1)
         ++ (if truthy (raw_content self)
             then shown_text
                    (open_after false
                                (split newline (raw_content self)))
                    (split newline chunk)
             else shown_text false ([] :: split newline chunk)).
Proof.
  destruct (render_as_markdown_shown self) as (s1 & Hs1 & Hc1).
  assert (Hraw : raw_content s1 = raw_content self).
  { destruct (render_as_markdown_display self) as (w & _ & Hs).
    rewrite Hs in Hs1. now inversion Hs1. }
  exists s1. unfold _append_streaming_content.
  destruct (render_as_markdown_shown
              (append_raw_text (newline :: chunk) [] s1))
    as (s2 & Hs2 & Hc2).
  exists s2. split; [exact Hs1|]. split; [exact Hs2|].
  rewrite Hc2, Hc1. cbn [append_raw_text raw_content truthy].
  rewrite Hraw, split_app_sep.
  destruct (raw_content self) as [|c raw] eqn:Er.
  - reflexivity.
  - cbn [truthy app]. apply shown_text_app.
Qed.

End Display.

End DisplayFacts.

(* ===================================================================== *)
(** ** Lines made of one inline construct *)
(* ===================================================================== *)

Module SingleConstruct.
Import Py Re Inline ReFacts InlineFacts NoMatch.

Lemma finditer_from_skip matcher : forall s pos skip,
  length s <= skip -> finditer_from matcher s pos skip = [].
Proof.
  induction s as [|c s IH]; intros pos skip Hs; [reflexivity|].
  cbn [length] in Hs. destruct skip as [|k]; [lia|].
  cbn [finditer_from]. apply IH. lia.
Qed.

(** A scan whose first attempt matches the whole string finds that
    match alone. *)
Lemma scan_whole matcher s g :
  s <> [] -> matcher s = Some (length s, g) ->
  scan matcher s
  = [{| m_start := 0; m_end := length s; m_group1 := g |}].
Proof.
  intros Hs Hm. unfold scan. destruct s as [|c s']; [congruence|].
  cbn [finditer_from]. rewrite Hm. f_equal.
  apply finditer_from_skip. cbn [length]. lia.
Qed.

(** Every match of a scan is not empty and lies inside the string. *)
Lemma finditer_from_bounds matcher removed :
  matcher_ok matcher removed ->
  forall s pos skip m,
    In m (finditer_from matcher s pos skip) ->
    pos <= m_start m /\ m_start m < m_end m
    /\ m_end m <= pos + length s.
Proof.
  intros Hok. induction s as [|c s IH]; intros pos skip m Hin;
    cbn [finditer_from] in Hin; [destruct Hin|].
  cbn [length].
  assert (Hrec : forall k, In m (finditer_from matcher s (S pos) k) ->
                 pos <= m_start m /\ m_start m < m_end m
                 /\ m_end m <= pos + S (length s)).
  { intros k Hk. specialize (IH _ _ _ Hk). lia. }
  destruct skip as [|k]; [|eauto].
  destruct (matcher (c :: s)) as [[len g]|] eqn:E; [|eauto].
  destruct Hin as [<-|Hin]; [|eauto].
  destruct (Hok _ _ _ E) as [Hlen _]. cbn [length] in Hlen.
  cbn [m_start m_end]. lia.
Qed.

Lemma strip_prefix_same pre t : strip_prefix pre (pre ++ t) = Some t.
Proof.
  induction pre as [|p pre IH]; [reflexivity|].
  cbn [app strip_prefix]. unfold eqc. now rewrite N.eqb_refl.
Qed.

Lemma count_zero_isnot c x :
  count c x = 0 -> forallb (fun y => negb (eqc y c)) x = true.
Proof.
  unfold count, eqc. induction x as [|y x IH]; [reflexivity|].
  cbn [count_occ forallb]. destruct (N.eq_dec y c) as [->|Hne];
    [discriminate|].
  intros H. apply N.eqb_neq in Hne. rewrite Hne. now apply IH.
Qed.

Lemma count_repeat_ne c d n : d <> c -> count c (repeat d n) = 0.
Proof.
  intros Hne. unfold count. induction n as [|n IH]; [reflexivity|].
  cbn [repeat count_occ]. now destruct (N.eq_dec d c).
Qed.

(** The delimited pattern on [n] delimiters, a text without the
    delimiter and [n] delimiters. *)
Lemma match_delimited_wrapped c n x :
  1 <= n -> x <> [] -> count c x = 0 ->
  match_delimited c n (repeat c n ++ x ++ repeat c n)
  = Some (length (repeat c n ++ x ++ repeat c n), x).
Proof.
  intros Hn Hx Hc. unfold match_delimited.
  rewrite strip_prefix_same.
  rewrite (span_run (fun y => negb (eqc y c)) x (repeat c n)).
  - destruct x as [|y x]; [congruence|].
    pose proof (strip_prefix_same (repeat c n) []) as Hp.
    rewrite app_nil_r in Hp. rewrite Hp. do 2 f_equal.
    rewrite !length_app, !repeat_length. lia.
  - now apply count_zero_isnot.
  - destruct n as [|n]; [lia|]. cbn [repeat]. unfold eqc.
    now rewrite N.eqb_refl.
Qed.

Lemma scan_wrapped c n x :
  1 <= n -> x <> [] -> count c x = 0 ->
  scan (match_delimited c n) (repeat c n ++ x ++ repeat c n)
  = [{| m_start := 0;
        m_end := length (repeat c n ++ x ++ repeat c n);
        m_group1 := x |}].
Proof.
  intros Hn Hx Hc. apply scan_whole.
  - destruct n as [|n]; [lia|]. discriminate.
  - now apply match_delimited_wrapped.
Qed.

Lemma splice_whole (s x : str) : splice s 0 (length s) x = x.
Proof.
  unfold splice. rewrite skipn_all. cbn [firstn app].
  now rewrite app_nil_r.
Qed.

Lemma pass_nil ranges c n kind removed st :
  1 <= n -> count c (processed_text st) < n + n ->
  format_pass ranges (delimited false c n) kind removed st = st.
Proof.
  intros Hn Hc. unfold format_pass.
  rewrite finditer_delimited, scan_delimited_nil by assumption.
  reflexivity.
Qed.

Lemma link_pass_nil ranges st :
  (count (chr "[") (processed_text st) = 0
   \/ count (chr "]") (processed_text st) = 0
   \/ count (chr "(") (processed_text st) = 0
   \/ count (chr ")") (processed_text st) = 0) ->
  format_pass ranges link_pattern link link_removed st = st.
Proof.
  intros Hc. unfold format_pass.
  rewrite finditer_link, scan_link_nil by assumption. reflexivity.
Qed.

(** The pass whose delimiters wrap the whole text, outside any code
    range: the delimiters go, one format covers what is left. *)
Lemma wrapped_pass c n kind removed x st :
  1 <= n -> x <> [] -> count c x = 0 ->
  processed_text st = repeat c n ++ x ++ repeat c n ->
  format_pass [] (delimited false c n) kind removed st
  = {| processed_text := x;
       formats := formats st
                  ++ [fmt_of 0 (Z.of_nat (length x)) kind];
       offset := offset st
                 + removed {| m_start := 0;
                              m_end := length (processed_text st);
                              m_group1 := x |} |}.
Proof.
  intros Hn Hx Hc Hst. unfold format_pass.
  rewrite finditer_delimited, Hst, scan_wrapped by assumption.
  cbn [rev app fold_left]. unfold format_step.
  cbn [_position_in_ranges existsb negb m_start m_end m_group1].
  rewrite Hst, splice_whole. reflexivity.
Qed.

(** A match inside the one code range of the line is skipped. *)
Lemma fold_rejected ranges kind removed st ms :
  (forall m, In m ms ->
     _position_in_ranges (m_start m) (m_end m) ranges (offset st)
     = true) ->
  fold_left (format_step ranges kind removed) ms st = st.
Proof.
  induction ms as [|m ms IH]; intros H; [reflexivity|].
  cbn [fold_left]. unfold format_step at 2.
  rewrite (H m) by now left. cbn [negb]. apply IH.
  intros m' Hm'. apply H. now right.
Qed.

Lemma pass_inside_code pattern kind removed st :
  matcher_ok (exec pattern) removed ->
  offset st = 2 ->
  format_pass [(0, length (processed_text st) + 2)] pattern kind
              removed st
  = st.
Proof.
  intros Hok Ho. unfold format_pass. apply fold_rejected.
  intros m Hm. apply in_rev in Hm.
  destruct (finditer_from_bounds _ _ Hok _ _ _ _ Hm) as (_ & H1 & H2).
  unfold _position_in_ranges. cbn [existsb]. rewrite Ho.
  rewrite orb_false_r. apply andb_true_iff. split; apply Nat.ltb_lt; lia.
Qed.

(** X13. A line that is one code span is displayed without its
    backquotes, as one [inline_code] format over the whole text, and
    nothing inside it is formatted, whatever markdown the span holds:
    every later pass finds its matches inside the code range and skips
    them. *)
Theorem code_span_line_is_immune (x : str) :
  x <> [] -> count (chr "`") x = 0 ->
  _process_inline_formatting (lit "`" ++ x ++ lit "`")
  = (x, [fmt_of 0 (Z.of_nat (length x)) inline_code]).
Proof.
  intros Hx Hc.
  assert (ok : forall c n,
             matcher_ok (exec (delimited false c (S n)))
                        (fun _ => S n + S n))
    by (intros; apply exec_delimited_ok; lia).
  unfold _process_inline_formatting, inline_passes.
  change code_pattern with (delimited true (chr "`") 1).
  change (lit "`") with (repeat (chr "`") 1).
  rewrite finditer_delimited, scan_wrapped by (assumption || lia).
  cbn [map rev app fold_left m_start m_end]. unfold code_step.
  cbn [processed_text formats offset m_start m_end m_group1 app].
  rewrite splice_whole.
  replace (length (repeat (chr "`") 1 ++ x ++ repeat (chr "`") 1))
    with (length x + 2)
    by (rewrite !length_app; cbn [repeat length]; lia).
  set (st1 := {| processed_text := x; formats := _; offset := _ |}).
  change (length x + 2) with (length (processed_text st1) + 2).
  change strikethrough_pattern with (delimited false (chr "~") 2).
  change bold_italic_pattern with (delimited false (chr "*") 3).
  change bold_pattern with (delimited false (chr "*") 2).
  change italic_pattern with (delimited false (chr "*") 1).
  rewrite (pass_inside_code _ strikethrough (fun _ => 4) st1
             (ok (chr "~") 1)) by reflexivity.
  rewrite (pass_inside_code _ bold_italic (fun _ => 6) st1
             (ok (chr "*") 2)) by reflexivity.
  rewrite (pass_inside_code _ bold (fun _ => 4) st1 (ok (chr "*") 1))
    by reflexivity.
  rewrite (pass_inside_code _ italic (fun _ => 2) st1 (ok (chr "*") 0))
    by reflexivity.
  rewrite (pass_inside_code _ link _ st1 exec_link_ok) by reflexivity.
  reflexivity.
Qed.

Ltac counts :=
  cbn [processed_text]; rewrite ?count_app;
  repeat first
    [ rewrite count_repeat
    | rewrite count_repeat_ne by (vm_compute; discriminate) ];
  lia.

Ltac name_patterns :=
  unfold _process_inline_formatting, inline_passes;
  change code_pattern with (delimited true (chr "`") 1);
  change strikethrough_pattern with (delimited false (chr "~") 2);
  change bold_italic_pattern with (delimited false (chr "*") 3);
  change bold_pattern with (delimited false (chr "*") 2);
  change italic_pattern with (delimited false (chr "*") 1).

(** X14. A line that is one emphasis construct around plain text is
    displayed as the plain text under one format of the kind its
    delimiters name: strikethrough for two tildes, bold-italic for
    three stars, bold for two, italic for one.  The passes run from the
    longest star delimiter to the shortest, so three stars are never
    read as bold around italic. *)
Theorem emphasis_line_has_one_format (x : str) :
  x <> [] ->
  count (chr "`") x = 0 -> count (chr "~") x = 0 ->
  count (chr "*") x = 0 ->
  (count (chr "[") x = 0 \/ count (chr "]") x = 0
   \/ count (chr "(") x = 0 \/ count (chr ")") x = 0) ->
  _process_inline_formatting (lit "~~" ++ x ++ lit "~~")
  = (x, [fmt_of 0 (Z.of_nat (length x)) strikethrough])
  /\ _process_inline_formatting (lit "***" ++ x ++ lit "***")
     = (x, [fmt_of 0 (Z.of_nat (length x)) bold_italic])
  /\ _process_inline_formatting (lit "**" ++ x ++ lit "**")
     = (x, [fmt_of 0 (Z.of_nat (length x)) bold])
  /\ _process_inline_formatting (lit "*" ++ x ++ lit "*")
     = (x, [fmt_of 0 (Z.of_nat (length x)) italic]).
Proof.
  intros Hx Hq Ht Hs Hl.
  split; [|split; [|split]]; name_patterns.
  - change (lit "~~") with (repeat (chr "~") 2).
    rewrite (finditer_delimited true), scan_delimited_nil by counts.
    cbn [map rev fold_left].
    rewrite (wrapped_pass (chr "~") 2 strikethrough _ x)
      by (assumption || lia || reflexivity).
    rewrite (pass_nil [] (chr "*") 3), (pass_nil [] (chr "*") 2),
      (pass_nil [] (chr "*") 1) by counts.
    rewrite link_pass_nil by exact Hl. reflexivity.
  - change (lit "***") with (repeat (chr "*") 3).
    rewrite (finditer_delimited true), scan_delimited_nil by counts.
    cbn [map rev fold_left].
    rewrite (pass_nil [] (chr "~") 2) by counts.
    rewrite (wrapped_pass (chr "*") 3 bold_italic _ x)
      by (assumption || lia || reflexivity).
    rewrite (pass_nil [] (chr "*") 2), (pass_nil [] (chr "*") 1)
      by counts.
    rewrite link_pass_nil by exact Hl. reflexivity.
  - change (lit "**") with (repeat (chr "*") 2).
    rewrite (finditer_delimited true), scan_delimited_nil by counts.
    cbn [map rev fold_left].
    rewrite (pass_nil [] (chr "~") 2), (pass_nil [] (chr "*") 3)
      by counts.
    rewrite (wrapped_pass (chr "*") 2 bold _ x)
      by (assumption || lia || reflexivity).
    rewrite (pass_nil [] (chr "*") 1) by counts.
    rewrite link_pass_nil by exact Hl. reflexivity.
  - change (lit "*") with (repeat (chr "*") 1).
    rewrite (finditer_delimited true), scan_delimited_nil by counts.
    cbn [map rev fold_left].
    rewrite (pass_nil [] (chr "~") 2), (pass_nil [] (chr "*") 3),
      (pass_nil [] (chr "*") 2) by counts.
    rewrite (wrapped_pass (chr "*") 1 italic _ x)
      by (assumption || lia || reflexivity).
    rewrite link_pass_nil by exact Hl. reflexivity.
Qed.

Lemma match_link_whole label url :
  label <> [] -> url <> [] ->
  count (chr "]") label = 0 -> count (chr ")") url = 0 ->
  match_link (lit "[" ++ label ++ lit "](" ++ url ++ lit ")")
  = Some (length (lit "[" ++ label ++ lit "](" ++ url ++ lit ")"),
          label).
Proof.
  intros Hl Hu Hcl Hcu. unfold match_link.
  change (lit "[" ++ label ++ lit "](" ++ url ++ lit ")")
    with (chr "[" :: label ++ lit "](" ++ url ++ lit ")").
  cbv iota. unfold eqc at 1. rewrite N.eqb_refl.
  rewrite (span_run (fun y => negb (eqc y (chr "]"))) label
                    (lit "](" ++ url ++ lit ")"));
    [|now apply count_zero_isnot|reflexivity].
  destruct label as [|a label]; [congruence|].
  rewrite strip_prefix_same.
  rewrite (span_run (fun y => negb (eqc y (chr ")"))) url (lit ")"));
    [|now apply count_zero_isnot|reflexivity].
  destruct url as [|b url]; [congruence|].
  change (lit ")") with [chr ")"]. cbv iota.
  repeat (rewrite ?length_app;
          cbn [length app lit list_ascii_of_string map]).
  do 2 f_equal. lia.
Qed.

(** X15. A line that is one link [[label](url)] around a plain label
    is displayed as the label alone under one [link] format: the
    brackets, the parentheses and the URL are removed from the text,
    and the URL is kept nowhere in the result. *)
Theorem link_line_shows_only_its_label (label url : str) :
  label <> [] -> url <> [] ->
  count (chr "]") label = 0 -> count (chr ")") url = 0 ->
  count (chr "`") (label ++ url) = 0 ->
  count (chr "~") (label ++ url) = 0 ->
  count (chr "*") (label ++ url) = 0 ->
  _process_inline_formatting
    (lit "[" ++ label ++ lit "](" ++ url ++ lit ")")
  = (label, [fmt_of 0 (Z.of_nat (length label)) link]).
Proof.
  intros Hl Hu Hcl Hcu Hq Ht Hs. rewrite count_app in Hq, Ht, Hs.
  name_patterns.
  change (lit "[") with (repeat (chr "[") 1).
  change (lit "](") with (repeat (chr "]") 1 ++ repeat (chr "(") 1).
  change (lit ")") with (repeat (chr ")") 1).
  rewrite (finditer_delimited true), scan_delimited_nil by counts.
  cbn [map rev fold_left].
  rewrite (pass_nil [] (chr "~") 2), (pass_nil [] (chr "*") 3),
    (pass_nil [] (chr "*") 2), (pass_nil [] (chr "*") 1) by counts.
  unfold format_pass. cbn [processed_text].
  rewrite finditer_link.
  change (repeat (chr "[") 1) with (lit "[").
  change (repeat (chr "]") 1 ++ repeat (chr "(") 1) with (lit "](").
  change (repeat (chr ")") 1) with (lit ")").
  rewrite (scan_whole match_link _ label)
    by (discriminate || now apply match_link_whole).
  cbn [rev app fold_left]. unfold format_step.
  cbn [_position_in_ranges existsb negb m_start m_end m_group1
       processed_text formats].
  rewrite splice_whole. reflexivity.
Qed.

End SingleConstruct.

(* ===================================================================== *)
(** ** The ranges of the block tags *)
(* ===================================================================== *)

Module RangeFacts.
Import Py Re Inline Tk MarkdownText RenderFacts WidgetFacts.

Lemma block_range_mono n n' r :
  n <= n' -> block_range_within n r -> block_range_within n' r.
Proof.
  destruct r as [[t i1] i2].
  destruct t, i1, i2; cbn [block_range_within]; intros Hn H;
    try exact H; lia.
Qed.

Lemma block_ranges_mono n n' rs :
  n <= n' -> Forall (block_range_within n) rs ->
  Forall (block_range_within n') rs.
Proof.
  intros Hn. apply Forall_impl. intros r. now apply block_range_mono.
Qed.

(** A block goes from the end of the text before it to the end of the
    text after it. *)
Lemma emit_block_within t text pos w :
  at_end pos w ->
  Forall (block_range_within (length (content w))) (tag_ranges w) ->
  Forall (block_range_within
            (length (content (snd (emit_block t (text ++ [newline])
                                              pos w)))))
         (tag_ranges (snd (emit_block t (text ++ [newline]) pos w))).
Proof.
  intros Hw H. unfold emit_block, tag_add. cbn [snd content tag_ranges].
  rewrite (insert_at_end _ _ _ Hw).
  change (tag_ranges (insert (At pos) (text ++ [newline]) w))
    with (tag_ranges w).
  apply Forall_app. split.
  - apply (block_ranges_mono (length (content w))); [|exact H].
    rewrite length_app. lia.
  - constructor; [|constructor]. unfold at_end in Hw.
    destruct t; cbn [block_range_within]; try exact I;
      rewrite !length_app; cbn [length]; lia.
Qed.

Lemma apply_format_tags_within n pos fs : forall w,
  Forall (block_range_within n) (tag_ranges w) ->
  Forall (block_range_within n)
         (tag_ranges (_apply_format_tags pos fs w)).
Proof.
  unfold _apply_format_tags.
  induction fs as [|f fs IH]; intros w Hw; [exact Hw|].
  cbn [fold_left]. apply IH. unfold tag_add. cbn [tag_ranges].
  apply Forall_app. split; [exact Hw|].
  constructor; [exact I|constructor].
Qed.

Lemma emit_paragraph_within line pos w :
  at_end pos w ->
  Forall (block_range_within (length (content w))) (tag_ranges w) ->
  Forall (block_range_within
            (length (content (snd (emit_paragraph line pos w)))))
         (tag_ranges (snd (emit_paragraph line pos w))).
Proof.
  intros Hw H. unfold emit_paragraph.
  destruct (_process_inline_formatting line) as [text fs]. cbn [snd].
  apply apply_format_tags_within.
  rewrite apply_format_tags_content, (insert_at_end _ _ _ Hw).
  change (tag_ranges (insert (At pos) (text ++ [newline]) w))
    with (tag_ranges w).
  apply (block_ranges_mono (length (content w))); [|exact H].
  rewrite length_app. lia.
Qed.

Section Ranges.
Context {UD : UnicodeDigits}.

Lemma loop_body_within line rest pos w :
  at_end pos w ->
  Forall (block_range_within (length (content w))) (tag_ranges w) ->
  Forall (block_range_within
            (length (content (snd (loop_body line rest pos w)))))
         (tag_ranges (snd (loop_body line rest pos w))).
Proof.
  intros Hw H. unfold loop_body.
  destruct (is_fence line).
  { destruct (fence_scan rest []) as [code_lines after].
    unfold emit_code. destruct (truthy code_lines); [|exact H].
    pose proof (emit_block_within code_block
                  (join [newline] code_lines) pos w Hw H).
    now destruct (emit_block _ _ _ _). }
  destruct (heading_of line) as [[n t]|].
  { pose proof (emit_block_within (h n) t pos w Hw H).
    now destruct (emit_block _ _ _ _). }
  destruct (is_quote line).
  { destruct (quote_scan (line :: rest) []) as [ql after].
    destruct (truthy ql); [|exact H].
    pose proof (emit_block_within blockquote (join [newline] ql)
                  pos w Hw H).
    now destruct (emit_block _ _ _ _). }
  destruct (is_list_item line).
  { pose proof (emit_block_within list_item
                  (sub_ordered (sub_unordered line)) pos w Hw H).
    now destruct (emit_block _ _ _ _). }
  destruct (matches hrule_pattern line).
  { pose proof (emit_block_within normal (repeat rule_glyph 50)
                  pos w Hw H).
    now destruct (emit_block _ _ _ _). }
  pose proof (emit_paragraph_within line pos w Hw H).
  now destruct (emit_paragraph line pos w).
Qed.

Lemma render_loop_within : forall fuel lines pos w r,
  at_end pos w ->
  Forall (block_range_within (length (content w))) (tag_ranges w) ->
  render_loop fuel lines pos w = Some r ->
  Forall (block_range_within (length (content (snd r))))
         (tag_ranges (snd r)).
Proof.
  induction fuel as [|fuel IH]; intros [|line rest] pos w r Hw H E;
    cbn [render_loop] in E; try discriminate;
    try (inversion E; subst; exact H).
  pose proof (loop_body_within line rest pos w Hw H) as H'.
  pose proof (loop_body_end line rest pos w Hw) as Hw'.
  destruct (loop_body line rest pos w) as [[lines1 pos1] w1].
  cbn [fst snd] in H', Hw'. eauto.
Qed.

End Ranges.

(** What a range between two counts inside the text covers. *)
Lemma tagged_length w a b :
  (0 <= a <= b)%Z -> (b <= Z.of_nat (length (content w)))%Z ->
  length (tagged w (At a) (At b)) = Z.to_nat (b - a).
Proof.
  intros Hab Hb. unfold tagged, resolve.
  rewrite length_skipn, length_firstn. lia.
Qed.

Section Cover.
Context {UD : UnicodeDigits}.

(** X16. Every range of a block tag (a heading level, [code_block],
    [blockquote], [list_item], [normal]) that a markdown rendering
    requests lies inside the displayed text and covers at least one
    character of it: it goes from a character count to a larger one,
    none past the end of the text, so Tk clips nothing of it.  The
    ranges of the inline formats are outside this property. *)
Theorem block_ranges_cover_text (self : widget) :
  exists s,
    render_as_markdown self = Some s
    /\ forall t i1 i2,
        In (t, i1, i2) (tag_ranges (display s)) ->
        is_block_tag t = true ->
        exists a b,
          i1 = At a /\ i2 = At b
          /\ (0 <= a < b)%Z
          /\ (b <= Z.of_nat (length (content (display s))))%Z
          /\ length (tagged (display s) i1 i2) = Z.to_nat (b - a)
          /\ tagged (display s) i1 i2 <> [].
Proof.
  destruct (render_as_markdown_display self) as (w & Hw & ->).
  eexists. split; [reflexivity|]. cbn [display].
  assert (H : Forall (block_range_within (length (content w)))
                     (tag_ranges w)).
  { unfold _render_markdown_text in Hw.
    destruct (negb (truthy (raw_content self))).
    - inversion Hw. constructor.
    - unfold render_lines in Hw.
      destruct (render_loop _ _ _ _) as [r|] eqn:E; [|discriminate].
      cbn in Hw. inversion Hw. subst w.
      apply (render_loop_within _ _ 0%Z empty r eq_refl
                                (Forall_nil _) E). }
  intros t i1 i2 Hin Ht. rewrite Forall_forall in H.
  specialize (H _ Hin).
  destruct t; try discriminate;
    destruct i1 as [a|], i2 as [b|]; cbn [block_range_within] in H;
    try contradiction;
    (exists a, b; split; [reflexivity|]; split; [reflexivity|];
     split; [exact (proj1 H)|]; split; [exact (proj2 H)|];
     assert (Hl : length (tagged w (At a) (At b)) = Z.to_nat (b - a))
       by (apply tagged_length; lia);
     split; [exact Hl|];
     intros Hnil; rewrite Hnil in Hl; cbn [length] in Hl; lia).
Qed.

End Cover.

End RangeFacts.

(* ===================================================================== *)
(** ** Text without markdown *)
(* ===================================================================== *)

Module PlainFacts.
Import Py Re Inline Tk MarkdownText PyFacts RenderFacts MoreBlocks.
Import WidgetFacts DisplayFacts.

Lemma join_split sep s : join [sep] (split sep s) = s.
Proof.
  induction s as [|c s IH]; [reflexivity|].
  cbn [split]. pose proof (split_truthy sep s) as Ht.
  destruct (eqc c sep) eqn:Ec.
  - apply N.eqb_eq in Ec. subst c.
    destruct (split sep s) as [|l ls]; [discriminate|].
    change (join [sep] ([] :: l :: ls))
      with ([] ++ [sep] ++ join [sep] (l :: ls)).
    now rewrite IH.
  - destruct (split sep s) as [|l ls]; [discriminate|].
    destruct ls as [|l' ls]; [cbn [join] in *; now rewrite IH|].
    change (join [sep] ((c :: l) :: l' :: ls))
      with (c :: (l ++ [sep] ++ join [sep] (l' :: ls))).
    change (join [sep] (l :: l' :: ls))
      with (l ++ [sep] ++ join [sep] (l' :: ls)) in IH.
    now rewrite IH.
Qed.

Lemma insert_end_record pos t w :
  at_end pos w ->
  insert (At pos) t w
  = {| content := content w ++ t; tag_ranges := tag_ranges w |}.
Proof.
  unfold at_end, insert, resolve. intros ->.
  rewrite Nat2Z.id, Nat.min_id, firstn_all, skipn_all.
  now rewrite app_nil_r.
Qed.

Section Plain.
Context {UD : UnicodeDigits}.

(** The loop on lines without markdown adds each line and a newline,
    and no tag range. *)
Lemma plain_lines_render : forall lines pos w,
  Forall plain_line lines -> at_end pos w ->
  exists pos',
    render_lines lines pos w
    = Some (pos',
            {| content := content w
                          ++ concat (map (fun l => l ++ [newline]) lines);
               tag_ranges := tag_ranges w |}).
Proof.
  induction lines as [|line rest IH]; intros pos w Hp Hw.
  - exists pos. rewrite render_lines_nil. cbn [map concat].
    rewrite app_nil_r. now destruct w.
  - inversion Hp as [|? ? (H1 & H2 & H3 & H4 & H5) Hrest]; subst.
    rewrite render_lines_cons.
    rewrite (plain_line_block line rest pos w H1 H2 H3 H4 H5).
    rewrite (insert_end_record _ _ _ Hw).
    match goal with |- context [render_lines rest ?p ?w1] =>
      destruct (IH p w1 Hrest) as [pos' ->] end.
    { unfold at_end in *. cbn [content]. subst pos.
      rewrite !length_app. lia. }
    exists pos'. cbn [content tag_ranges map concat].
    now rewrite <- !app_assoc.
Qed.

(** X17. Text without markdown looks the same in both modes: when no
    line of a buffer that is not empty starts a block or holds enough
    delimiters for an inline pattern, the markdown rendering displays
    the buffer followed by one newline, with no tag range at all,
    where the plain rendering displays the buffer under the tag
    [normal]. *)
Theorem plain_text_looks_the_same_in_markdown (self : widget) :
  raw_content self <> [] ->
  Forall plain_line (split newline (raw_content self)) ->
  render_as_markdown self
  = Some {| raw_content := raw_content self;
            markdown_enabled := markdown_enabled self;
            display := {| content := raw_content self ++ [newline];
                          tag_ranges := [] |} |}
  /\ content (display (render_as_plain_text self)) = raw_content self.
Proof.
  intros Hraw Hp. split.
  - destruct (render_as_markdown_display self) as (w & Hw & ->).
    do 3 f_equal. unfold _render_markdown_text in Hw.
    destruct (raw_content self) as [|c raw] eqn:Er; [congruence|].
    cbn [truthy negb] in Hw. rewrite <- Er in *.
    destruct (plain_lines_render _ 0%Z empty Hp eq_refl) as [pos' Hr].
    rewrite Hr in Hw. cbn [option_map snd content tag_ranges empty app]
      in Hw.
    inversion Hw. f_equal.
    rewrite <- join_concat, join_split; [reflexivity|].
    pose proof (split_truthy newline (raw_content self)) as Ht.
    now destruct (split newline (raw_content self)).
  - unfold render_as_plain_text, insert, resolve. cbn.
    now rewrite app_nil_r.
Qed.

End Plain.

End PlainFacts.

(* ===================================================================== *)
(** ** The theorems above on concrete lines *)
(* ===================================================================== *)

Module MoreExamples.
Import Py Re Inline Tk MarkdownText.

Lemma quote_run_witness :
  (forallb is_quote [lit "> a"; lit " >> b"] = true
   /\ quote_ends [lit "c"])
  /\ loop_body (lit "> a") ([lit " >> b"] ++ [lit "c"]) 0 empty
     = ([lit "c"], 4%Z,
        {| content := lit "a" ++ [newline] ++ lit "b" ++ [newline];
           tag_ranges := [(blockquote, At 0, At 4)] |}).
Proof.
  assert (H1 : forallb is_quote [lit "> a"; lit " >> b"] = true)
    by reflexivity.
  assert (H2 : quote_ends [lit "c"]) by reflexivity.
  split; [auto|].
  rewrite (@MoreBlocks.quote_run_is_one_block ascii_digits
             (lit "> a") [lit " >> b"] [lit "c"] 0%Z empty H1 H2).
  reflexivity.
Defined.

Lemma rule_line_witness :
  matches hrule_pattern (lit "  *****  ") = true
  /\ loop_body (lit "  *****  ") [] 0 empty
     = ([], 51%Z,
        {| content := repeat rule_glyph 50 ++ [newline];
           tag_ranges := [(normal, At 0, At 51)] |}).
Proof.
  assert (H1 : matches hrule_pattern (lit "  *****  ") = true)
    by reflexivity.
  split; [exact H1|].
  rewrite (@MoreBlocks.rule_line_is_fifty_dashes ascii_digits
             (lit "  *****  ") [] 0%Z empty H1).
  reflexivity.
Defined.

Lemma unordered_item_witness :
  matches unordered_test (lit "  +   **x**") = true
  /\ exists indent m ws text,
      lit "  +   **x**" = indent ++ m :: ws ++ text
      /\ forallb isspace indent = true
      /\ is_list_marker m = true
      /\ ws <> [] /\ forallb isspace ws = true
      /\ match text with c :: _ => isspace c = false | [] => True end
      /\ loop_body (lit "  +   **x**") [] 0 empty
         = let (pos', w') :=
             emit_block list_item
                        (indent ++ [bullet; chr " "] ++ text ++ [newline])
                        0 empty in
           ([], pos', w').
Proof.
  assert (H1 : matches unordered_test (lit "  +   **x**") = true)
    by reflexivity.
  split; [exact H1|].
  exact (@MoreBlocks.unordered_item_gets_a_bullet ascii_digits
           (lit "  +   **x**") [] 0%Z empty H1).
Defined.

Lemma ordered_item_witness :
  matches ordered_test (lit "  12. b") = true
  /\ loop_body (lit "  12. b") [] 0 empty
     = ([], 10%Z,
        {| content := lit "    12. b" ++ [newline];
           tag_ranges := [(list_item, At 0, At 10)] |}).
Proof.
  assert (H1 : matches ordered_test (lit "  12. b") = true)
    by reflexivity.
  split; [exact H1|].
  rewrite (@MoreBlocks.ordered_item_repeats_its_indentation ascii_digits
             (lit "  12. b") [] 0%Z empty H1).
  reflexivity.
Defined.

Lemma plain_line_witness :
  (match strip (lit " so (it) goes ") with
   | [] => True
   | c :: _ => block_marker c = false /\ isdecimal c = false
   end
   /\ count (chr "`") (lit " so (it) goes ") < 2
   /\ count (chr "~") (lit " so (it) goes ") < 4
   /\ count (chr "*") (lit " so (it) goes ") < 2
   /\ (count (chr "[") (lit " so (it) goes ") = 0
       \/ count (chr "]") (lit " so (it) goes ") = 0
       \/ count (chr "(") (lit " so (it) goes ") = 0
       \/ count (chr ")") (lit " so (it) goes ") = 0))
  /\ loop_body (lit " so (it) goes ") [] 0 empty
     = ([], 15%Z,
        {| content := lit " so (it) goes " ++ [newline];
           tag_ranges := [] |}).
Proof.
  assert (H1 : match strip (lit " so (it) goes ") with
               | [] => True
               | c :: _ => block_marker c = false /\ isdecimal c = false
               end) by (split; reflexivity).
  assert (H2 : count (chr "`") (lit " so (it) goes ") < 2)
    by (vm_compute; lia).
  assert (H3 : count (chr "~") (lit " so (it) goes ") < 4)
    by (vm_compute; lia).
  assert (H4 : count (chr "*") (lit " so (it) goes ") < 2)
    by (vm_compute; lia).
  assert (H5 : count (chr "[") (lit " so (it) goes ") = 0
               \/ count (chr "]") (lit " so (it) goes ") = 0
               \/ count (chr "(") (lit " so (it) goes ") = 0
               \/ count (chr ")") (lit " so (it) goes ") = 0)
    by (left; reflexivity).
  split; [auto 6|].
  rewrite (@MoreBlocks.plain_line_is_inserted_as_it_is ascii_digits
             (lit " so (it) goes ") [] 0%Z empty H1 H2 H3 H4 H5).
  reflexivity.
Defined.

Lemma stream_witness :
  [lit "a **bo"; lit "ld**"; [newline]; lit "- x"] <> []
  /\ option_map
       (fun s => (raw_content s, content (display s)))
       (stream true [lit "a **bo"; lit "ld**"; [newline]; lit "- x"]
               {| raw_content := []; markdown_enabled := true;
                  display := empty |})
     = Some (lit "a **bold**" ++ [newline] ++ lit "- x",
             lit "a bold" ++ [newline] ++ [bullet] ++ lit " x"
             ++ [newline]).
Proof.
  assert (H1 : [lit "a **bo"; lit "ld**"; [newline]; lit "- x"] <> [])
    by discriminate.
  split; [exact H1|].
  rewrite (@WidgetFacts.stream_equals_one_append ascii_digits true
             [lit "a **bo"; lit "ld**"; [newline]; lit "- x"]
             {| raw_content := []; markdown_enabled := true;
                display := empty |} H1).
  reflexivity.
Defined.

Lemma code_span_witness :
  (lit "**a** [b](c)" <> [] /\ count (chr "`") (lit "**a** [b](c)") = 0)
  /\ _process_inline_formatting (lit "`**a** [b](c)`")
     = (lit "**a** [b](c)", [fmt_of 0 12 inline_code]).
Proof.
  assert (H1 : lit "**a** [b](c)" <> []) by discriminate.
  assert (H2 : count (chr "`") (lit "**a** [b](c)") = 0) by reflexivity.
  split; [auto|].
  exact (SingleConstruct.code_span_line_is_immune
           (lit "**a** [b](c)") H1 H2).
Defined.

Lemma emphasis_line_witness :
  (lit "so it goes" <> []
   /\ count (chr "`") (lit "so it goes") = 0
   /\ count (chr "~") (lit "so it goes") = 0
   /\ count (chr "*") (lit "so it goes") = 0
   /\ (count (chr "[") (lit "so it goes") = 0
       \/ count (chr "]") (lit "so it goes") = 0
       \/ count (chr "(") (lit "so it goes") = 0
       \/ count (chr ")") (lit "so it goes") = 0))
  /\ _process_inline_formatting (lit "~~so it goes~~")
     = (lit "so it goes", [fmt_of 0 10 strikethrough])
  /\ _process_inline_formatting (lit "***so it goes***")
     = (lit "so it goes", [fmt_of 0 10 bold_italic])
  /\ _process_inline_formatting (lit "**so it goes**")
     = (lit "so it goes", [fmt_of 0 10 bold])
  /\ _process_inline_formatting (lit "*so it goes*")
     = (lit "so it goes", [fmt_of 0 10 italic]).
Proof.
  assert (H1 : lit "so it goes" <> []) by discriminate.
  assert (H2 : count (chr "`") (lit "so it goes") = 0) by reflexivity.
  assert (H3 : count (chr "~") (lit "so it goes") = 0) by reflexivity.
  assert (H4 : count (chr "*") (lit "so it goes") = 0) by reflexivity.
  assert (H5 : count (chr "[") (lit "so it goes") = 0
               \/ count (chr "]") (lit "so it goes") = 0
               \/ count (chr "(") (lit "so it goes") = 0
               \/ count (chr ")") (lit "so it goes") = 0)
    by (left; reflexivity).
  split; [auto 6|].
  exact (SingleConstruct.emphasis_line_has_one_format
           (lit "so it goes") H1 H2 H3 H4 H5).
Defined.

Lemma link_line_witness :
  (lit "the docs" <> [] /\ lit "https://example.com/a_b" <> []
   /\ count (chr "]") (lit "the docs") = 0
   /\ count (chr ")") (lit "https://example.com/a_b") = 0
   /\ count (chr "`") (lit "the docs" ++ lit "https://example.com/a_b")
      = 0
   /\ count (chr "~") (lit "the docs" ++ lit "https://example.com/a_b")
      = 0
   /\ count (chr "*") (lit "the docs" ++ lit "https://example.com/a_b")
      = 0)
  /\ _process_inline_formatting
       (lit "[the docs](https://example.com/a_b)")
     = (lit "the docs", [fmt_of 0 8 link]).
Proof.
  assert (H1 : lit "the docs" <> []) by discriminate.
  assert (H2 : lit "https://example.com/a_b" <> []) by discriminate.
  assert (H3 : count (chr "]") (lit "the docs") = 0) by reflexivity.
  assert (H4 : count (chr ")") (lit "https://example.com/a_b") = 0)
    by reflexivity.
  assert (H5 : count (chr "`")
                     (lit "the docs" ++ lit "https://example.com/a_b")
               = 0) by reflexivity.
  assert (H6 : count (chr "~")
                     (lit "the docs" ++ lit "https://example.com/a_b")
               = 0) by reflexivity.
  assert (H7 : count (chr "*")
                     (lit "the docs" ++ lit "https://example.com/a_b")
               = 0) by reflexivity.
  split; [auto 8|].
  exact (SingleConstruct.link_line_shows_only_its_label
           (lit "the docs") (lit "https://example.com/a_b")
           H1 H2 H3 H4 H5 H6 H7).
Defined.

Lemma plain_text_witness :
  let self := {| raw_content := lit "one" ++ [newline; newline]
                                ++ lit "two (2)";
                 markdown_enabled := true;
                 display := empty |} in
  (raw_content self <> []
   /\ Forall plain_line (split newline (raw_content self)))
  /\ render_as_markdown self
     = Some {| raw_content := raw_content self;
               markdown_enabled := true;
               display := {| content := raw_content self ++ [newline];
                             tag_ranges := [] |} |}
  /\ content (display (render_as_plain_text self)) = raw_content self.
Proof.
  intros self.
  assert (H1 : raw_content self <> []) by discriminate.
  assert (H2 : Forall plain_line (split newline (raw_content self))).
  { change (split newline (raw_content self))
      with [lit "one"; []; lit "two (2)"].
    repeat (apply Forall_cons;
            [unfold plain_line; repeat split;
             try (vm_compute; lia); try (left; reflexivity)|]).
    apply Forall_nil. }
  split; [auto|].
  exact (@PlainFacts.plain_text_looks_the_same_in_markdown ascii_digits
           self H1 H2).
Defined.

Lemma block_ranges_witness :
  let self := {| raw_content := lit "# T" ++ [newline] ++ lit "> q"
                                ++ [newline] ++ lit "a `b`";
                 markdown_enabled := true;
                 display := empty |} in
  exists s,
    render_as_markdown self = Some s
    /\ content (display s)
       = lit "T" ++ [newline] ++ lit "q" ++ [newline] ++ lit "a b"
         ++ [newline]
    /\ tag_ranges (display s)
       = [(h 1, At 0, At 2); (blockquote, At 2, At 4);
          (fmt_tag inline_code, At 6, At 7)]
    /\ tagged (display s) (At 2) (At 4) = lit "q" ++ [newline]
    /\ exists a b,
        At 2 = At a /\ At 4 = At b
        /\ (0 <= a < b)%Z
        /\ (b <= Z.of_nat (length (content (display s))))%Z
        /\ length (tagged (display s) (At 2) (At 4)) = Z.to_nat (b - a)
        /\ tagged (display s) (At 2) (At 4) <> [].
Proof.
  intros self.
  destruct (@RangeFacts.block_ranges_cover_text ascii_digits self)
    as (s & Hs & H).
  exists s. split; [exact Hs|].
  assert (Hv : render_as_markdown self
               = Some {| raw_content := raw_content self;
                         markdown_enabled := true;
                         display :=
                           {| content := lit "T" ++ [newline] ++ lit "q"
                                         ++ [newline] ++ lit "a b"
                                         ++ [newline];
                              tag_ranges :=
                                [(h 1, At 0, At 2);
                                 (blockquote, At 2, At 4);
                                 (fmt_tag inline_code, At 6, At 7)] |} |})
    by reflexivity.
  rewrite Hv in Hs. injection Hs as Hs'. rewrite <- Hs' in H |- *.
  cbn [display] in H |- *.
  split; [reflexivity|]. split; [reflexivity|]. split; [reflexivity|].
  apply (H blockquote (At 2) (At 4)); [right; left|]; reflexivity.
Defined.

End MoreExamples.
